(** * Lithos WorthPoint pipeline: normalisation, de-duplication, aggregation

    A shallow embedding of [scripts/process-worthpoint-csvs.py] and
    [scripts/import-worthpoint-to-supabase.py], followed by the properties of
    the specification that were checked against it.

    Modelling conventions.
    - A Python [str] is a [string] of 8-bit characters; the character classes
      of [re] and the case mapping of [str.lower] are the ASCII ones.
    - A Python [float] is an exact rational ([Q], kept in lowest terms by every
      arithmetic operation).  Binary rounding error, infinities and NaN are
      outside the model; [round(x, n)] rounds the exact value half-to-even.
      The two agree except where binary rounding decides a comparison or a
      tie: [0.05 * 0.2] is exactly [0.01] here and just above it in binary.
    - A [dict] read from a CSV file is a [gmap string string]: every cell is
      a string (no row is shorter than the header, for which [DictReader]
      would supply [None]).  A [set] of strings is a [gset string]; a [dict]
      whose iteration order is observed is an association list in insertion
      order.
    - [None] is [None]; a function that raises returns [None] or an element
      of an error type. *)

From Stdlib Require Import ZArith QArith Qround Ascii Lqa.
From stdpp Require Import base option list gmap sets strings sorting pretty.

Local Open Scope Z_scope.

(** ** Python string primitives *)

Module PyStr.

Definition code (a : ascii) : N := N_of_ascii a.

(** [c.isdigit()] on an ASCII character, the class [\d]. *)
Definition is_digit (a : ascii) : bool :=
  ((48 <=? code a) && (code a <=? 57))%N.

(** The class [\s] of a [str] pattern restricted to ASCII: tab, newline,
    vertical tab, form feed, carriage return, the four separators
    FS, GS, RS, US, and space.  [str.strip] removes the same characters. *)
Definition is_space (a : ascii) : bool :=
  (((9 <=? code a) && (code a <=? 13))
   || ((28 <=? code a) && (code a <=? 31))
   || (code a =? 32))%N.

Definition is_upper (a : ascii) : bool :=
  ((65 <=? code a) && (code a <=? 90))%N.

Definition lower_char (a : ascii) : ascii :=
  if is_upper a then ascii_of_N (code a + 32) else a.

(** [s.lower()] *)
Fixpoint lower (s : string) : string :=
  match s with
  | EmptyString => EmptyString
  | String a s' => String (lower_char a) (lower s')
  end.

(** [all(p(c) for c in s)] *)
Fixpoint all (p : ascii → bool) (s : string) : bool :=
  match s with
  | EmptyString => true
  | String a s' => p a && all p s'
  end.

(** [s.startswith(p)] *)
Fixpoint startswith (p s : string) : bool :=
  match p, s with
  | EmptyString, _ => true
  | String a p', String b s' => if decide (a = b) then startswith p' s' else false
  | String _ _, EmptyString => false
  end.

(** [sub in s]: substring test. *)
Fixpoint contains (sub s : string) : bool :=
  startswith sub s ||
  match s with
  | EmptyString => false
  | String _ s' => contains sub s'
  end.

(** [s[:n]] *)
Fixpoint take (n : nat) (s : string) : string :=
  match n, s with
  | O, _ => EmptyString
  | S n', String a s' => String a (take n' s')
  | S _, EmptyString => EmptyString
  end.

(** [s[n:]] *)
Fixpoint drop (n : nat) (s : string) : string :=
  match n, s with
  | O, _ => s
  | S n', String _ s' => drop n' s'
  | S _, EmptyString => EmptyString
  end.

(** [s.lstrip()], [s.rstrip()], [s.strip()] *)
Fixpoint lstrip (s : string) : string :=
  match s with
  | String a s' => if is_space a then lstrip s' else s
  | EmptyString => EmptyString
  end.

Fixpoint rstrip (s : string) : string :=
  match s with
  | EmptyString => EmptyString
  | String a s' =>
      match rstrip s' with
      | EmptyString => if is_space a then EmptyString else String a EmptyString
      | r => String a r
      end
  end.

Definition strip (s : string) : string := rstrip (lstrip s).

(** [s.replace(old, new)] for a non-empty [old]: non-overlapping
    occurrences, scanned left to right. *)
Fixpoint replace_go (fuel : nat) (old new s : string) : string :=
  match fuel with
  | O => s
  | S fuel' =>
      match s with
      | EmptyString => EmptyString
      | String a s' =>
          if startswith old s
          then new +:+ replace_go fuel' old new (drop (String.length old) s)
          else String a (replace_go fuel' old new s')
      end
  end.

Definition replace (old new s : string) : string :=
  replace_go (S (String.length s)) old new s.

(** [os.path.basename(p)] on POSIX: what follows the last slash. *)
Fixpoint basename_go (cur s : string) : string :=
  match s with
  | EmptyString => cur
  | String a s' =>
      if decide (a = "/"%char) then basename_go s' s' else basename_go cur s'
  end.

Definition basename (p : string) : string := basename_go p p.

(** Truthiness of an optional string: [None] and [''] are falsy. *)
Definition truthy (o : option string) : bool :=
  match o with
  | Some (String _ _) => true
  | _ => false
  end.

(** [a or b] on optional strings. *)
Definition or_else (a b : option string) : option string :=
  if truthy a then a else b.

End PyStr.

(** ** Python floats, idealised as rationals *)

Module PyFloat.

Definition pow10 (n : nat) : Z := 10 ^ Z.of_nat n.

Definition mul (x y : Q) : Q := Qred (x * y).
Definition div (x y : Q) : Q := Qred (x / y).
Definition add (x y : Q) : Q := Qred (x + y).

Definition ltb (x y : Q) : bool :=
  match (x ?= y)%Q with Lt => true | _ => false end.
Definition leb (x y : Q) : bool :=
  match (x ?= y)%Q with Gt => false | _ => true end.

(** [bool(x)]: a float is falsy exactly when it is zero. *)
Definition truthy (x : Q) : bool := negb (Qeq_bool x 0).

(** Nearest integer, ties to the even one. *)
Definition round_half_even (x : Q) : Z :=
  let f := Qfloor x in
  match ((x - inject_Z f) ?= (1 # 2))%Q with
  | Lt => f
  | Gt => f + 1
  | Eq => if Z.even f then f else f + 1
  end.

(** [round(x, n)] for [n >= 0]. *)
Definition round (x : Q) (n : nat) : Q :=
  Qred (inject_Z (round_half_even (x * inject_Z (pow10 n))) / inject_Z (pow10 n)).

(** *** [float(s)] on a string

    The grammar of the language reference:
    [floatvalue ::= [sign] (number [exponent])] with
    [digitpart ::= digit (["_"] digit)*],
    [number ::= [digitpart] "." digitpart | digitpart ["."]],
    surrounded by optional whitespace.  The literals [inf], [infinity] and
    [nan] denote no rational and are not accepted. *)

Definition digit_val (a : ascii) : Z := Z.of_N (PyStr.code a) - 48.

(** Reads the rest of a [digitpart] after its first digit: returns the
    digits read (most significant first) and the remaining input. *)
Fixpoint digitpart_rest (s : string) : list Z * string :=
  match s with
  | String a s' =>
      if PyStr.is_digit a then
        let '(ds, r) := digitpart_rest s' in (digit_val a :: ds, r)
      else if decide (a = "_"%char) then
        match s' with
        | String b s'' =>
            if PyStr.is_digit b then
              let '(ds, r) := digitpart_rest s'' in (digit_val b :: ds, r)
            else ([], s)
        | EmptyString => ([], s)
        end
      else ([], s)
  | EmptyString => ([], s)
  end.

Definition digitpart (s : string) : option (list Z * string) :=
  match s with
  | String a s' =>
      if PyStr.is_digit a then
        let '(ds, r) := digitpart_rest s' in Some (digit_val a :: ds, r)
      else None
  | EmptyString => None
  end.

Definition digits_to_Z (ds : list Z) : Z :=
  fold_left (fun acc d => 10 * acc + d) ds 0.

(** [number]: the integer made of all digits, and the count of digits
    after the point. *)
Definition number (s : string) : option (Z * nat * string) :=
  match digitpart s with
  | Some (ip, r) =>
      match r with
      | String "." r' =>
          match digitpart r' with
          | Some (fp, r'') => Some (digits_to_Z (ip ++ fp), length fp, r'')
          | None => Some (digits_to_Z ip, O, r')
          end
      | _ => Some (digits_to_Z ip, O, r)
      end
  | None =>
      match s with
      | String "." r' =>
          match digitpart r' with
          | Some (fp, r'') => Some (digits_to_Z fp, length fp, r'')
          | None => None
          end
      | _ => None
      end
  end.

Definition sign (s : string) : bool * string :=
  match s with
  | String "-" s' => (true, s')
  | String "+" s' => (false, s')
  | _ => (false, s)
  end.

Definition exponent (s : string) : option (Z * string) :=
  match s with
  | String a s' =>
      if bool_decide (a = "e"%char) || bool_decide (a = "E"%char) then
        let '(neg, s'') := sign s' in
        match digitpart s'' with
        | Some (ds, r) =>
            Some (if neg then - digits_to_Z ds else digits_to_Z ds, r)
        | None => None
        end
      else Some (0, s)
  | EmptyString => Some (0, s)
  end.

Definition scale10 (m : Z) (e : Z) : Q :=
  if 0 <=? e then inject_Z (m * 10 ^ e)
  else Qred (inject_Z m / inject_Z (10 ^ (- e))).

(** [float(s)]; [None] stands for [ValueError]. *)
Definition of_string (s : string) : option Q :=
  let '(neg, s1) := sign (PyStr.strip s) in
  match number s1 with
  | Some (m, k, s2) =>
      match exponent s2 with
      | Some (e, EmptyString) =>
          let q := scale10 m (e - Z.of_nat k) in
          Some (if neg then Qred (- q) else q)
      | _ => None
      end
  | None => None
  end.

(** [repr(x)] of a float whose value is a decimal fraction, in positional
    notation: sign, integer part, point, and the digits after the point
    (at least one).  Python switches to exponent notation below [1e-4] and
    from [1e16] on; [float] reads both back alike. *)
Fixpoint frac_digits (fuel : nat) (rem den : Z) : string :=
  match fuel with
  | O => EmptyString
  | S fuel' =>
      if rem =? 0 then EmptyString
      else String (ascii_of_N (Z.to_N (rem * 10 / den) + 48))
             (frac_digits fuel' (rem * 10 mod den) den)
  end.

Definition repr (x : Q) : string :=
  let n := Z.abs (Qnum x) in
  let d := Z.pos (Qden x) in
  let frac := frac_digits 20 (n mod d) d in
  (if Qnum x <? 0 then "-" else "")
  +:+ pretty (n / d) +:+ "."
  +:+ (if decide (frac = EmptyString) then "0" else frac).

End PyFloat.

(** ** The fragment of [re] used by the scripts

    A backtracking matcher as a list of successes: [ends r st] lists, in the
    order the backtracking engine tries them, the states in which a match of
    [r] started in state [st] can end.  A state is the text of group 1 (if it
    took part in the match so far) and the input that remains.  Patterns are
    matched under [re.IGNORECASE]. *)

Module Regex.

Inductive cset : Type :=
| Digit                    (* \d *)
| Space                    (* \s *)
| Lit (a : ascii)          (* a literal character *)
| OneOf (l : list ascii).  (* [...] *)

Definition same_letter (a b : ascii) : bool :=
  bool_decide (PyStr.lower_char a = PyStr.lower_char b).

Definition cset_match (c : cset) (a : ascii) : bool :=
  match c with
  | Digit => PyStr.is_digit a
  | Space => PyStr.is_space a
  | Lit b => same_letter a b
  | OneOf l => existsb (same_letter a) l
  end.

Inductive regex : Type :=
| Eps
| Chr (c : cset)
| Seq (r1 r2 : regex)
| Alt (r1 r2 : regex)
| Opt (r : regex)          (* r?  greedy *)
| Star (c : cset)          (* c*  greedy *)
| Plus (c : cset)          (* c+  greedy *)
| Eol                      (* $ *)
| Group (r : regex).       (* ( r ), group 1 *)

Definition state : Type := option string * string.

(** [$] without [re.MULTILINE]: at the end, or before a final newline. *)
Definition at_end (s : string) : bool :=
  match s with
  | EmptyString => true
  | String a EmptyString => bool_decide (a = "010"%char)
  | _ => false
  end.

(** Greedy repetition of one character class: longest first. *)
Fixpoint star (c : cset) (s : string) : list string :=
  match s with
  | String a s' => if cset_match c a then star c s' ++ [s] else [s]
  | EmptyString => [s]
  end.

Fixpoint ends (r : regex) (st : state) : list state :=
  match r with
  | Eps => [st]
  | Chr c =>
      match st.2 with
      | String a s' => if cset_match c a then [(st.1, s')] else []
      | EmptyString => []
      end
  | Seq r1 r2 => st1 ← ends r1 st; ends r2 st1
  | Alt r1 r2 => ends r1 st ++ ends r2 st
  | Opt r1 => ends r1 st ++ [st]
  | Star c => (λ s', (st.1, s')) <$> star c st.2
  | Plus c =>
      match st.2 with
      | String a s' =>
          if cset_match c a then (λ s'', (st.1, s'')) <$> star c s' else []
      | EmptyString => []
      end
  | Eol => if at_end st.2 then [st] else []
  | Group r1 =>
      (λ st1 : state,
         (Some (PyStr.take (String.length st.2 - String.length st1.2) st.2),
          st1.2)) <$> ends r1 st
  end.

(** [re.search(r, s)]: the first match at the leftmost position that has
    one.  The result is [match.group(1)]. *)
Fixpoint search (r : regex) (s : string) : option (option string) :=
  match ends r (None, s) with
  | st :: _ => Some st.1
  | [] =>
      match s with
      | String _ s' => search r s'
      | EmptyString => None
      end
  end.

(** The texts a pattern can consume, without regard to what follows. *)
Fixpoint lang (r : regex) (t : string) : Prop :=
  match r with
  | Eps => t = EmptyString
  | Chr c => ∃ a, t = String a EmptyString ∧ cset_match c a = true
  | Seq r1 r2 => ∃ t1 t2, t = t1 +:+ t2 ∧ lang r1 t1 ∧ lang r2 t2
  | Alt r1 r2 => lang r1 t ∨ lang r2 t
  | Opt r1 => t = EmptyString ∨ lang r1 t
  | Star c => PyStr.all (cset_match c) t = true
  | Plus c => ∃ a t', t = String a t' ∧ cset_match c a = true
                      ∧ PyStr.all (cset_match c) t' = true
  | Eol => t = EmptyString
  | Group r1 => lang r1 t
  end.

Fixpoint group_free (r : regex) : bool :=
  match r with
  | Seq r1 r2 | Alt r1 r2 => group_free r1 && group_free r2
  | Opt r1 => group_free r1
  | Group _ => false
  | _ => true
  end.




(** A literal word, character by character. *)
Fixpoint word (w : string) : regex :=
  match w with
  | EmptyString => Eps
  | String a EmptyString => Chr (Lit a)
  | String a w' => Seq (Chr (Lit a)) (word w')
  end.

End Regex.

(** ** [process-worthpoint-csvs.py] *)

Module Processor.
Import Regex.

(** A row of [csv.DictReader]: column name to cell text. *)
Abbreviation Row := (gmap string string).

(** [row.get(k)] and [row.get(k, d)] *)
Definition get (row : Row) (k : string) : option string := row !! k.
Definition get_or (row : Row) (k d : string) : string := default d (row !! k).

Definition ruleset : Type := string * (string → bool).
Definition ruleset_table : Type := list (string * ruleset).

Definition MATERIAL_CONFIG : ruleset_table :=
  let has := PyStr.contains in
  [ ("darwin-glass", ("darwin-glass", λ t, has "darwin glass" t));
    ("_darwin-glass_", ("darwin-glass", λ t, has "darwin glass" t));
    ("trinitite", ("trinitite", λ t, has "trinitite" t && negb (has "red" t)));
    ("australite", ("australite", λ t, has "australite" t));
    ("philippinite", ("philippinite", λ t, has "philippinite" t));
    ("georgiaite", ("georgiaite", λ t, has "georgiaite" t));
    ("bediasite", ("bediasite", λ t, has "bediasite" t));
    ("gibeon", ("gibeon-meteorite", λ t, has "gibeon" t));
    ("seymchan", ("seymchan-meteorite", λ t, has "seymchan" t));
    ("chelyabinsk", ("chelyabinsk-meteorite", λ t, has "chelyabinsk" t));
    ("canyon-diablo", ("canyon-diablo-meteorite", λ t, has "canyon diablo" t));
    ("fulgurite", ("fulgurite", λ t, has "fulgurite" t));
    ("osmium", ("osmium", λ t, has "osmium" t));
    ("iridium", ("iridium", λ t, has "iridium" t));
    ("gallium", ("gallium", λ t, has "gallium" t));
    ("bismuth", ("bismuth", λ t, has "bismuth" t));
    ("uranium-glass", ("uranium-glass", λ t, has "uranium" t && has "glass" t));
    ("allende", ("allende-meteorite", λ t, has "allende" t));
    ("indochinite", ("indochinite", λ t, has "indochinite" t));
    ("nwa-martian", ("nwa-martian-meteorite",
       λ t, has "martian" t || (has "nwa" t && has "mars" t) || has "shergottite" t));
    ("muonionalusta", ("muonionalusta-meteorite", λ t, has "muonionalusta" t));
    ("nwa-lunar", ("nwa-lunar-meteorite",
       λ t, has "lunar" t || (has "nwa" t && has "moon" t)));
    ("libyan-desert-glass", ("libyan-desert-glass", λ t, has "libyan" t || has "ldg" t));
    ("sikhote", ("sikhote-alin-meteorite", λ t, has "sikhote" t));
    ("campo", ("campo-del-cielo-meteorite", λ t, has "campo" t));
    ("kt-boundary", ("kpg-boundary",
       λ t, has "kt" t || has "k-t" t || has "k-pg" t || has "kpg" t
            || has "cretaceous" t || has "boundary" t));
    ("cretaceous-boundary", ("kpg-boundary",
       λ t, has "cretaceous" t || has "kt" t || has "k-t" t || has "k-pg" t
            || has "boundary" t));
    ("impact-spherules", ("kpg-boundary",
       λ t, has "spherule" t || has "impact" t || has "kt" t || has "cretaceous" t)) ].

(** *** [extract_weight] *)

(** The numeric token every pattern starts with, group 1:
    [( \d+ \.? \d* )].  The patterns below are quoted with blanks between
    their parts. *)
Definition number_token : regex :=
  Seq (Plus Digit) (Seq (Opt (Chr (Lit "."))) (Star Digit)).
Definition number_group : regex := Group number_token.

Definition G : regex := Chr (OneOf ["G"; "g"]%char).
Definition space_or_end : regex := Alt (Chr Space) Eol.

Definition patterns : list (regex * Q) :=
  [ (* ( \d+ \.? \d* ) \s*[Gg](?:rams?)?(?:\s|$|,) *)
    (Seq number_group (Seq (Star Space) (Seq G
       (Seq (Opt (Seq (word "ram") (Opt (Chr (Lit "s")))))
            (Alt (Chr Space) (Alt Eol (Chr (Lit ","))))))), 1);
    (* ( \d+ \.? \d* ) -[Gg](?:rams?)? *)
    (Seq number_group (Seq (Chr (Lit "-")) (Seq G
       (Opt (Seq (word "ram") (Opt (Chr (Lit "s"))))))), 1);
    (* ( \d+ \.? \d* ) \s*[Gg]r\.?(?:\s|$) *)
    (Seq number_group (Seq (Star Space) (Seq G (Seq (Chr (Lit "r"))
       (Seq (Opt (Chr (Lit "."))) space_or_end)))), 1);
    (* ( \d+ \.? \d* ) \s*ct(?:s)?(?:\s|$) *)
    (Seq number_group (Seq (Star Space) (Seq (word "ct")
       (Seq (Opt (Chr (Lit "s"))) space_or_end))), 1 # 5);
    (* ( \d+ \.? \d* ) \s*carat *)
    (Seq number_group (Seq (Star Space) (word "carat")), 1 # 5);
    (* ( \d+ \.? \d* ) \s*oz(?:\s|$) *)
    (Seq number_group (Seq (Star Space) (Seq (word "oz") space_or_end)), 567 # 20);
    (* ( \d+ \.? \d* ) \s*kg(?:\s|$) *)
    (Seq number_group (Seq (Star Space) (Seq (word "kg") space_or_end)), 1000);
    (* ( \d+ \.? \d* ) \s*lb(?:s)?(?:\s|$) *)
    (Seq number_group (Seq (Star Space) (Seq (word "lb")
       (Seq (Opt (Chr (Lit "s"))) space_or_end))), 2268 # 5) ]%Q.

(** [0.01 < weight < 100000] *)
Definition weight_in_bounds (weight : Q) : bool :=
  PyFloat.ltb (1 # 100) weight && PyFloat.ltb weight 100000.

(** [float(match.group(1)) * multiplier] for the leftmost match of one
    pattern; [None] when the pattern has no match.  ([float] cannot fail on
    the text of group 1: lemma [number_group_is_float].) *)
Definition match_weight (pattern : regex) (multiplier : Q) (title : string)
  : option Q :=
  g ← search pattern title;
  v ← PyFloat.of_string (default "" g);
  Some (PyFloat.mul v multiplier).

(** The [for pattern, multiplier in patterns] loop. *)
Fixpoint extract_weight_loop (pats : list (regex * Q)) (title : string)
  : option Q :=
  match pats with
  | [] => None
  | (pattern, multiplier) :: pats' =>
      match search pattern title with
      | Some g =>
          match PyFloat.of_string (default "" g) with
          | Some v =>
              let weight := PyFloat.mul v multiplier in
              if weight_in_bounds weight then Some (PyFloat.round weight 3)
              else extract_weight_loop pats' title
          | None => None
          end
      | None => extract_weight_loop pats' title
      end
  end.

Definition extract_weight (title : string) : option Q :=
  extract_weight_loop patterns title.

(** *** [parse_price] *)

(** [re.sub(r'[$,\s]', '', s)] *)
Fixpoint clean_price (s : string) : string :=
  match s with
  | EmptyString => EmptyString
  | String a s' =>
      if bool_decide (a = "$"%char) || bool_decide (a = ","%char) || PyStr.is_space a
      then clean_price s' else String a (clean_price s')
  end.

Definition parse_price (price_str : option string) : option Q :=
  if negb (PyStr.truthy price_str) then None
  else
    let cleaned := clean_price (default "" price_str) in
    match PyFloat.of_string cleaned with
    | Some price =>
        if PyFloat.ltb 0 price && PyFloat.ltb price 1000000
        then Some (PyFloat.round price 2) else None
    | None => None
    end.

(** *** [get_material_key] *)

Definition has_key (config : ruleset_table) (k : string) : bool :=
  existsb (λ e, bool_decide (e.1 = k)) config.

Definition get_material_key (config : ruleset_table) (filename : string)
  : option string :=
  let base := PyStr.lower (PyStr.replace ".csv" "" (PyStr.basename filename)) in
  if has_key config base then Some base
  else
    fst <$> List.find (λ e, PyStr.contains e.1 base || PyStr.contains base e.1) config.

(** [MATERIAL_CONFIG[key]] *)
Definition config_lookup (config : ruleset_table) (k : string) : option ruleset :=
  snd <$> List.find (λ e, bool_decide (e.1 = k)) config.

(** *** Step 2 of [main]: filtering by title and de-duplication *)

(** What the loop body evaluates, in order.  The log is not part of the
    script's data; it records the order of evaluation. *)
Inductive event : Type :=
| EvFilter (title : string)          (* filter_fn(title) *)
| EvSeenTest (title_key : string)    (* title_key in seen_titles *)
| EvSeenAdd (title_key : string).    (* seen_titles.add(title_key) *)

Record filter_state : Type := FilterState {
  filtered_data : list (string * list Row);
  seen_titles : gset string;
  kept : nat;
  dropped : nat;
  trace : list event
}.

(** [filtered_data[slug].append(row)] on a [defaultdict(list)] *)
Fixpoint dd_append (slug : string) (row : Row) (d : list (string * list Row))
  : list (string * list Row) :=
  match d with
  | [] => [(slug, [row])]
  | (k, rows) :: d' =>
      if decide (k = slug) then (k, rows ++ [row]) :: d'
      else (k, rows) :: dd_append slug row d'
  end.

(** The body of [for row in rows]. *)
Definition filter_row (material_slug : string) (filter_fn : string → bool)
    (st : filter_state) (row : Row) : filter_state :=
  let title := PyStr.lower (get_or row "title" "") in
  let tr1 := trace st ++ [EvFilter title] in
  if negb (filter_fn title) then
    FilterState (filtered_data st) (seen_titles st) (kept st) (S (dropped st)) tr1
  else
    let title_key := PyStr.take 60 title in
    let tr2 := tr1 ++ [EvSeenTest title_key] in
    if decide (title_key ∈ seen_titles st) then
      FilterState (filtered_data st) (seen_titles st) (kept st) (S (dropped st)) tr2
    else
      FilterState
        (dd_append material_slug (<["material_slug" := material_slug]> row)
           (filtered_data st))
        ({[title_key]} ∪ seen_titles st)
        (S (kept st)) (dropped st)
        (tr2 ++ [EvSeenAdd title_key]).

Definition filter_rows (material_slug : string) (filter_fn : string → bool)
    (st : filter_state) (rows : list Row) : filter_state :=
  fold_left (filter_row material_slug filter_fn) rows st.

Record step2_state : Type := Step2 {
  run : filter_state;
  filter_stats : list (string * (nat * nat * nat));
  warnings : list string
}.

(** The body of [for filename, rows in raw_data.items()].  The counters
    [kept] and [dropped] start at zero for every file.  The table is a
    parameter, so that tables other than [MATERIAL_CONFIG] can be spoken of.
    [MATERIAL_CONFIG[material_key]] cannot raise: the key comes from the
    table (lemma [get_material_key_in_table]). *)
Definition filter_file (config : ruleset_table) (st : step2_state)
    (file : string * list Row) : step2_state :=
  let '(filename, rows) := file in
  let material_key := get_material_key config filename in
  if negb (PyStr.truthy material_key) then
    Step2 (run st) (filter_stats st) (warnings st ++ [filename])
  else
    match config_lookup config (default "" material_key) with
    | Some (material_slug, filter_fn) =>
        let r0 := FilterState (filtered_data (run st)) (seen_titles (run st))
                    0 0 (trace (run st)) in
        let r1 := filter_rows material_slug filter_fn r0 rows in
        Step2 r1
          (filter_stats st ++ [(filename, (length rows, kept r1, dropped r1))])
          (warnings st)
    | None => st
    end.

Definition step2_init : step2_state :=
  Step2 (FilterState [] ∅ 0 0 []) [] [].

Definition filter_files (config : ruleset_table) (st : step2_state)
    (raw_data : list (string * list Row)) : step2_state :=
  fold_left (filter_file config) raw_data st.

(** *** [parse_date]

    [datetime.strptime] and [strftime] belong to the Python library and are
    taken as given: [strptime text fmt] is [None] when the call raises. *)

Section Library.
Variable datetime : Type.
Variable strptime : string → string → option datetime.
Variable strftime : datetime → string → string.

Definition formats : list string :=
  ["%b %d, %Y"; "%B %d, %Y"; "%m/%d/%Y"; "%Y-%m-%d"].

(** The [for fmt in formats] loop; [None] when every format raised. *)
Fixpoint parse_date_loop (fmts : list string) (text : string) : option string :=
  match fmts with
  | [] => None
  | fmt :: fmts' =>
      match strptime (PyStr.strip text) fmt with
      | Some dt => Some (strftime dt "%Y-%m-%d")
      | None => parse_date_loop fmts' text
      end
  end.

Definition parse_date (date_str : option string) : option string :=
  if negb (PyStr.truthy date_str) then None
  else
    match parse_date_loop formats (default "" date_str) with
    | Some d => Some d
    | None => if PyStr.truthy date_str then date_str else None
    end.

(** *** Step 3 of [main]: normalising *)

Record canonical : Type := Canonical {
  c_material_slug : string;
  c_title : string;
  c_price_usd : Q;
  c_sale_date : option string;
  c_weight_grams : option Q;
  c_price_per_gram : option Q;
  c_source : string
}.

(** [not weight] and [weight and ...] on an optional float. *)
Definition weight_truthy (weight : option Q) : bool :=
  match weight with
  | Some w => PyFloat.truthy w
  | None => false
  end.

(** The weight of a row: the [weight_grams] cell if it is non-empty and
    [float] reads it, replaced by the weight of the title when that is
    [None] or zero. *)
Definition row_weight (row : Row) (title : string) : option Q :=
  let weight :=
    if PyStr.truthy (get row "weight_grams")
    then PyFloat.of_string (get_or row "weight_grams" "")
    else None in
  if negb (weight_truthy weight) then extract_weight title else weight.

Definition price_per_gram_of (price : Q) (weight : option Q) : option Q :=
  match weight with
  | Some w =>
      if PyFloat.truthy w && PyFloat.ltb 0 w
      then Some (PyFloat.round (PyFloat.div price w) 2) else None
  | None => None
  end.

(** The body of the inner loop of step 3; [None] is [continue]. *)
Definition normalize_row (material_slug : string) (row : Row) : option canonical :=
  match parse_price (PyStr.or_else (get row "price_usd") (get row "price")) with
  | Some price =>
      if negb (PyFloat.truthy price) then None
      else
        let date := parse_date (PyStr.or_else (get row "sale_date") (get row "date")) in
        let title := get_or row "title" "" in
        let weight := row_weight row title in
        Some (Canonical material_slug title price date weight
                (price_per_gram_of price weight) "WorthPoint")
  | None => None
  end.

Definition normalize (filtered : list (string * list Row)) : list canonical :=
  '(material_slug, rows) ← filtered;
  omap (normalize_row material_slug) rows.

(** *** Step 4: the merged CSV, as [csv.DictWriter] writes it *)

Definition cell (o : option string) : string := default "" o.

Definition csv_row (c : canonical) : Row :=
  {[ "material_slug" := c_material_slug c;
     "title" := c_title c;
     "price_usd" := PyFloat.repr (c_price_usd c);
     "sale_date" := cell (c_sale_date c);
     "weight_grams" := cell (PyFloat.repr <$> c_weight_grams c);
     "price_per_gram" := cell (PyFloat.repr <$> c_price_per_gram c);
     "source" := c_source c ]}.

(** *** [main] *)

Inductive exn : Type :=
| ValueError.

Record outcome : Type := Outcome {
  merged_csv : option (list Row);      (* the file written in step 4 *)
  stats : list (string * (nat * nat * nat));
  skipped_files : list string;
  returned : exn + list canonical      (* step 5 *)
}.

(** Steps 2 to 5.  [raw_data] is what step 1 read, in the sorted order of
    the file names.  Step 5 only prints, but its [min(all_prices)] raises
    on an empty list. *)
Definition main_with (config : ruleset_table)
    (raw_data : list (string * list Row)) : outcome :=
  let st := filter_files config step2_init raw_data in
  let all_rows := normalize (filtered_data (run st)) in
  Outcome (Some (csv_row <$> all_rows)) (filter_stats st) (warnings st)
    (match all_rows with
     | [] => inl ValueError
     | _ => inr all_rows
     end).


End Library.

End Processor.

(** ** [import-worthpoint-to-supabase.py] *)

Module Importer.
Import Processor.

Record sale : Type := Sale {
  material_slug : string;
  price_per_gram : Q;
  sale_date : option string
}.

(** The body of the loop of [load_merged_csv]; [None] is [continue]. *)
Definition load_row (row : Row) : option sale :=
  if negb (PyStr.truthy (get row "price_per_gram"))
     || negb (PyStr.truthy (get row "sale_date")) then None
  else
    match PyFloat.of_string (get_or row "price_per_gram" "") with
    | Some ppg =>
        if PyFloat.leb ppg 0 || PyFloat.ltb 50000 ppg then None
        else
          match get row "material_slug" with
          | Some slug => Some (Sale slug ppg (get row "sale_date"))
          | None => None                          (* KeyError *)
          end
    | None => None                                (* ValueError *)
    end.

(** [load_merged_csv], on the rows [csv.DictReader] yields. *)
Definition load_merged_csv (rows : list Row) : list sale :=
  omap load_row rows.

Abbreviation Key := (string * string)%type.

(** The key of a record: [(material_slug, date[:7])] when
    [date and len(date) >= 7]. *)
Definition month_key (r : sale) : option Key :=
  match sale_date r with
  | Some date =>
      if PyStr.truthy (Some date) && bool_decide (7 ≤ String.length date)%nat
      then Some (material_slug r, PyStr.take 7 date) else None
  | None => None
  end.

(** [grouped[key].append(price)] on a [defaultdict(list)] *)
Definition group_append (grouped : gmap Key (list Q)) (r : sale)
  : gmap Key (list Q) :=
  match month_key r with
  | Some key => <[key := default [] (grouped !! key) ++ [price_per_gram r]]> grouped
  | None => grouped
  end.

Definition group (records : list sale) : gmap Key (list Q) :=
  fold_left group_append records ∅.

(** The order of [sorted] on the items of [grouped]: tuples compare
    component by component, strings by code point.  The keys of a [dict]
    are distinct, so the comparison never reaches the lists of prices. *)
Definition key_le (k1 k2 : Key) : Prop :=
  k1.1 ≠ k2.1 ∧ String.le k1.1 k2.1 ∨ k1.1 = k2.1 ∧ String.le k1.2 k2.2.

Definition item_le (i1 i2 : Key * list Q) : Prop := key_le i1.1 i2.1.

#[global] Instance key_le_dec : RelDecision key_le.
Proof. intros k1 k2. unfold key_le. apply _. Defined.

#[global] Instance item_le_dec : RelDecision item_le.
Proof. intros i1 i2. unfold item_le. apply _. Defined.

Definition float_le (x y : Q) : Prop := PyFloat.leb x y.

#[global] Instance float_le_dec : RelDecision float_le.
Proof. intros x y. unfold float_le. apply _. Defined.

(** [statistics.median]; [None] is [StatisticsError]. *)
Definition median (data : list Q) : option Q :=
  let data := merge_sort float_le data in
  let n := length data in
  if decide (n = 0)%nat then None
  else if decide (n `mod` 2 = 1)%nat then data !! (n `div` 2)%nat
  else
    let i := (n `div` 2)%nat in
    a ← data !! (i - 1)%nat; b ← data !! i;
    Some (PyFloat.div (PyFloat.add a b) 2).

Record aggregate : Type := Aggregate {
  a_material_slug : string;
  a_price_usd : Q;
  a_price_per : string;
  a_source : string;
  a_recorded_at : string
}.

(** The body of the second loop; [None] when [prices] is empty. *)
Definition aggregate_of (item : Key * list Q) : option aggregate :=
  let '((slug, month), prices) := item in
  median_price ← median prices;
  Some (Aggregate slug (PyFloat.round median_price 2) "gram"
          ("WorthPoint (n=" +:+ pretty (length prices) +:+ ")")
          (month +:+ "-15")).

Definition calculate_monthly_medians (records : list sale) : list aggregate :=
  omap aggregate_of (merge_sort item_le (map_to_list (group records))).

End Importer.

(** ** Vocabulary of the specification *)

Module Spec.
Import Processor.

(** The lowercased title of a raw row, and its de-duplication key. *)
Definition title_of (row : Row) : string := PyStr.lower (get_or row "title" "").
Definition key_of (row : Row) : string := PyStr.take 60 (title_of row).

(** [admit_key] as the specification words it: false and nothing recorded when
    the key is present, otherwise the key is inserted and the answer is
    true. *)
Definition admit_key (key : string) (seen : gset string) : bool * gset string :=
  if decide (key ∈ seen) then (false, seen) else (true, {[key]} ∪ seen).

(** A row that a pass with predicate [filter_fn] cannot admit any more. *)
Definition blocked (filter_fn : string → bool) (seen : gset string) (row : Row)
  : Prop :=
  filter_fn (title_of row) = false ∨ key_of row ∈ seen.

(** The same, for the rows of a file under the ruleset its name resolves to. *)
Definition file_blocked (config : ruleset_table) (seen : gset string)
    (file : string * list Row) : Prop :=
  ∀ key slug filter_fn,
    get_material_key config file.1 = Some key →
    PyStr.truthy (Some key) = true →
    config_lookup config key = Some (slug, filter_fn) →
    Forall (blocked filter_fn seen) file.2.

(** The events one row adds to the log. *)
Definition row_events (filter_fn : string → bool) (seen : gset string)
    (row : Row) : list event :=
  EvFilter (title_of row) ::
  (if filter_fn (title_of row) then
     EvSeenTest (key_of row) ::
     (if decide (key_of row ∈ seen) then [] else [EvSeenAdd (key_of row)])
   else []).

(** The kept counter of a statistics entry [(filename, (before, kept, dropped))]. *)
Definition kept_of (e : string * (nat * nat * nat)) : nat := e.2.1.2.

(** The events the loop body adds to the log for one row. *)
Definition events_of (slug : string) (filter_fn : string → bool)
    (st : filter_state) (row : Row) : list event :=
  drop (length (trace st)) (trace (filter_row slug filter_fn st row)).

(** "The membership test is evaluated before the predicate is applied": in
    the events of a row, a membership test precedes the predicate. *)
Definition dedup_before_filter (evs : list event) : Prop :=
  ∃ pre post key title,
    evs = pre ++ EvFilter title :: post ∧ EvSeenTest key ∈ pre.

(** A row recorded in [filtered_data] under a slug. *)
Definition recorded (slug : string) (row : Row) (d : list (string * list Row))
  : Prop :=
  ∃ rows, (slug, rows) ∈ d ∧ row ∈ rows.

(** A rule of [extract_weight] is passed over on a title when its pattern
    has no match there, or the weight of its match is out of bounds. *)
Definition passes_over (title : string) (p : Regex.regex * Q) : Prop :=
  match match_weight p.1 p.2 title with
  | Some v => weight_in_bounds v = false
  | None => True
  end.








(** The prices of the records of one (material, month) key, in the order
    of the records. *)
Definition group_values (k : Importer.Key) (records : list Importer.sale) : list Q :=
  Importer.price_per_gram <$> filter (λ r, Importer.month_key r = Some k) records.


(** [m] is the statistical median of [data]: the middle value of the sorted
    data, or the mean of the two middle values. *)
Definition is_median (data : list Q) (m : Q) : Prop :=
  ∃ sorted,
    sorted ≡ₚ data ∧ Sorted Qle sorted ∧
    let n := length data in
    if decide (n `mod` 2 = 1)%nat then sorted !! (n `div` 2)%nat = Some m
    else ∃ a b, sorted !! (n `div` 2 - 1)%nat = Some a
                ∧ sorted !! (n `div` 2)%nat = Some b
                ∧ m = PyFloat.div (PyFloat.add a b) 2.


(** The aggregate emitted for a group with median [m]. *)
Definition emitted (k : Importer.Key) (prices : list Q) (m : Q) : Importer.aggregate :=
  Importer.Aggregate k.1 (PyFloat.round m 2) "gram"
    ("WorthPoint (n=" +:+ pretty (length prices) +:+ ")") (k.2 +:+ "-15").

(** "A record whose date is null or not a date is in no bucket": the
    aggregates are those of the other records. *)
Definition in_no_bucket (r : Importer.sale) : Prop :=
  ∀ before after,
    Importer.calculate_monthly_medians (before ++ r :: after)
    = Importer.calculate_monthly_medians (before ++ after).

Definition not_space (a : ascii) : bool := negb (PyStr.is_space a).

(** Where a run of digits stops. *)
Definition stops (rest : string) : Prop :=
  match rest with
  | EmptyString => True
  | String c _ => PyStr.is_digit c = false ∧ c ≠ "_"%char
  end.

(** The sorted items of the groups. *)
Definition sorted_items (records : list Importer.sale)
  : list (Importer.Key * list Q) :=
  merge_sort Importer.item_le (map_to_list (Importer.group records)).


End Spec.

(** ** Sample inputs *)

Module Samples.
Import Processor.

(** A library whose [strptime] raises on every text.  The sample rows carry
    no date cell, so that [parse_date] returns before it calls the
    library. *)
Definition strptime0 : string → string → option Empty_set := λ _ _, None.
Definition strftime0 : Empty_set → string → string := λ d _, match d with end.

Definition trinitite_filter : string → bool :=
  λ t, PyStr.contains "trinitite" t && negb (PyStr.contains "red" t).
Definition uranium_glass_filter : string → bool :=
  λ t, PyStr.contains "uranium" t && PyStr.contains "glass" t.

Definition fresh : filter_state := FilterState [] ∅ 0 0 [].

Definition trinitite_row : Row := {[ "title" := "Trinitite 5g" ]}.
Definition red_bowl : Row := {[ "title" := "Red uranium glass bowl" ]}.
Definition red_bowl_caps : Row := {[ "title" := "RED URANIUM GLASS BOWL" ]}.


(** A row whose [weight_grams] cell is below the lower bound. *)
Definition tiny_weight_row : Row :=
  {[ "title" := "Trinitite fragment"; "price" := "10"; "weight_grams" := "0.005" ]}.




(** A record whose date is the text the date extractor could not parse. *)
Definition undated_sale : Importer.sale :=
  Importer.Sale "trinitite" 5 (Some "Unknown date").





End Samples.

(** ** Vocabulary of the further properties *)

Module Further.
Import Processor.

(** The characters [parse_price] removes: [$], [,] and whitespace. *)
Definition removable (c : ascii) : bool :=
  bool_decide (c = "$"%char) || bool_decide (c = ","%char) || PyStr.is_space c.

(** The base name [get_material_key] looks up. *)
Definition base_name (filename : string) : string :=
  PyStr.lower (PyStr.replace ".csv" "" (PyStr.basename filename)).

(** A key of the table that contains the base name or is contained in it. *)
Definition related (base : string) (e : string * ruleset) : bool :=
  PyStr.contains e.1 base || PyStr.contains base e.1.

(** All the rows of [filtered_data], whatever their material. *)
Definition kept_rows (d : list (string * list Row)) : list Row := d ≫= snd.

(** The canonical identifiers of a table. *)
Definition slugs (config : ruleset_table) : list string :=
  (λ e : string * ruleset, e.2.1) <$> config.

(** A string that does not start with whitespace. *)
Definition head_ok (s : string) : Prop :=
  match s with
  | EmptyString => True
  | String a _ => PyStr.is_space a = false
  end.

(** What step 2 guarantees of a row stored under [slug]: it is a row of the
    input with its [material_slug] cell set to [slug], and some ruleset of
    the table with that identifier accepts its title. *)
Definition stored_ok (config : ruleset_table) (pool : list Row)
    (slug : string) (row : Row) : Prop :=
  (∃ row0, row0 ∈ pool ∧ row = <["material_slug" := slug]> row0)
  ∧ ∃ key filter_fn, (key, (slug, filter_fn)) ∈ config
                     ∧ filter_fn (Spec.title_of row) = true.

(** The state of step 2 is well formed: the kept rows have pairwise distinct
    keys, which are exactly the seen keys; [filtered_data] has one entry
    per material, none of them empty, each holding rows stored as above. *)
Definition well_formed (config : ruleset_table) (pool : list Row)
    (st : filter_state) : Prop :=
  NoDup (Spec.key_of <$> kept_rows (filtered_data st))
  ∧ (∀ k, k ∈ seen_titles st ↔ k ∈ Spec.key_of <$> kept_rows (filtered_data st))
  ∧ NoDup (filtered_data st).*1
  ∧ Forall (λ e : string * list Row,
              e.2 ≠ [] ∧ Forall (stored_ok config pool e.1) e.2)
      (filtered_data st).

(** The counters of a statistics entry [(filename, (before, kept, dropped))]. *)
Definition before_of (e : string * (nat * nat * nat)) : nat := e.2.1.1.
Definition dropped_of (e : string * (nat * nat * nat)) : nat := e.2.2.

(** What the loop over the files keeps true of the statistics. *)
Definition accounted (config : ruleset_table) (files : list (string * list Row))
    (st : step2_state) : Prop :=
  Forall (λ e, (Spec.kept_of e + dropped_of e = before_of e)%nat
               ∧ PyStr.truthy (get_material_key config e.1) = true
               ∧ ∃ rows, (e.1, rows) ∈ files ∧ before_of e = length rows)
    (filter_stats st)
  ∧ sum_list (Spec.kept_of <$> filter_stats st)
    = length (kept_rows (filtered_data (run st)))
  ∧ Forall (λ f, PyStr.truthy (get_material_key config f) = false) (warnings st)
  ∧ (filter_stats st).*1 ++ warnings st ≡ₚ files.*1.



(** The number of prices held by the groups. *)
Definition prices_held (g : gmap Importer.Key (list Q)) : nat :=
  sum_list ((λ it : Importer.Key * list Q, length it.2) <$> map_to_list g).


(** The values of the characters of a string of digits. *)
Fixpoint digits_of (s : string) : list Z :=
  match s with
  | EmptyString => []
  | String a s' => PyFloat.digit_val a :: digits_of s'
  end.

(** A string of digits and the number it writes. *)
Definition writes (s : string) (n : Z) : Prop :=
  PyStr.all PyStr.is_digit s = true ∧ PyFloat.digits_to_Z (digits_of s) = n.

(** The record the loader makes of a record of the processor, were there
    no CSV text in between. *)
Definition sale_of (c : canonical) : option Importer.sale :=
  match c_price_per_gram c, c_sale_date c with
  | Some ppg, Some date =>
      if negb (PyStr.truthy (Some date))
         || PyFloat.leb ppg 0 || PyFloat.ltb 50000 ppg then None
      else Some (Importer.Sale (c_material_slug c) ppg (Some date))
  | _, _ => None
  end.

(** A row with a date that the library below does not read. *)
Definition dated_row : Row :=
  {[ "title" := "Trinitite fragment 5g"; "price" := "$25.00";
     "date" := "Jan 5, 2024" ]}.

(** *** Step 5 of [main]: the overall figures

    [all_prices] and [all_ppg] keep the truthy values; [min(all_prices)]
    raises [ValueError] on an empty list, before anything divides by
    [len(all_rows)]; the median printed is the element at [len // 2] of the
    sorted prices per gram. *)
Definition all_prices (all_rows : list canonical) : list Q :=
  c_price_usd <$> filter (λ c, PyFloat.truthy (c_price_usd c) = true) all_rows.

Definition all_ppg (all_rows : list canonical) : list Q :=
  omap (λ c, g ← c_price_per_gram c; if PyFloat.truthy g then Some g else None)
    all_rows.


Definition step5 (all_rows : list canonical) : exn + list canonical :=
  match all_prices all_rows with
  | [] => inl ValueError
  | _ => inr all_rows
  end.


(** A library that knows the ISO format only, on texts of the shape
    [dddd-dd-dd]; a parsed date is its own text.  It serves as a sample
    library where a date has to be parsed. *)
Definition iso_shape (text : string) : bool :=
  match text with
  | String y1 (String y2 (String y3 (String y4 (String "-" (String m1 (String m2
      (String "-" (String d1 (String d2 EmptyString))))))))) =>
      forallb PyStr.is_digit [y1; y2; y3; y4; m1; m2; d1; d2]
  | _ => false
  end.

Definition iso_strptime (text fmt : string) : option string :=
  if bool_decide (fmt = "%Y-%m-%d") && iso_shape text then Some text else None.

Definition iso_strftime (dt : string) (fmt : string) : string := dt.

(** *** Step 2, loop by loop

    The rows of a file whose title its ruleset accepts, each with the
    identifier of the ruleset, in the order of the file. *)
Definition candidates_of (config : ruleset_table) (file : string * list Row)
  : list (string * Row) :=
  match get_material_key config file.1 with
  | Some key =>
      if PyStr.truthy (Some key) then
        match config_lookup config key with
        | Some (slug, filter_fn) =>
            (λ row, (slug, row))
              <$> filter (λ row, filter_fn (Spec.title_of row) = true) file.2
        | None => []
        end
      else []
  | None => []
  end.

Definition candidates (config : ruleset_table)
    (raw_data : list (string * list Row)) : list (string * Row) :=
  raw_data ≫= candidates_of config.

Definition keys_of (l : list (string * Row)) : gset string :=
  list_to_set ((λ p : string * Row, Spec.key_of p.2) <$> l).

(** The rows whose key occurs for the first time. *)
Fixpoint first_occurrences (seen : gset string) (l : list (string * Row))
  : list (string * Row) :=
  match l with
  | [] => []
  | p :: l' =>
      if decide (Spec.key_of p.2 ∈ seen) then first_occurrences seen l'
      else p :: first_occurrences ({[Spec.key_of p.2]} ∪ seen) l'
  end.

(** [filtered_data.get(slug, [])] *)
Definition rows_of (slug : string) (d : list (string * list Row)) : list Row :=
  match List.find (λ e : string * list Row, bool_decide (e.1 = slug)) d with
  | Some e => e.2
  | None => []
  end.

(** The row as step 2 stores it. *)
Definition stored (p : string * Row) : Row := <["material_slug" := p.1]> p.2.

(** The rows stored under [slug] when [l] is run through from [seen]. *)
Definition stored_under (slug : string) (seen : gset string)
    (l : list (string * Row)) : list Row :=
  stored <$> filter (λ p : string * Row, p.1 = slug) (first_occurrences seen l).

(** A state of the matcher on the lowercased text. *)
Definition lower_state (st : Regex.state) : Regex.state :=
  (PyStr.lower <$> st.1, PyStr.lower st.2).

End Further.

(** ** [insert_to_supabase]

    The network is a parameter: [net n] is what [urllib.request.urlopen]
    does on the [n]-th request of the run.  It returns, raises [HTTPError]
    (whose body can be read and decoded, or not), or raises another
    [Exception]. *)

Module Upload.
Import Importer.

Inductive response : Type :=
| Accepted
| HTTPError (body_readable : bool)
| OtherError.

Record progress : Type := Progress {
  inserted : nat;
  errors : nat;
  requests : nat
}.

Definition batch_size : nat := 100.

(** [range(0, n, batch_size)] *)
Definition range_step (n : nat) : list nat :=
  (λ k, k * batch_size)%nat <$> seq 0 ((n + (batch_size - 1)) `div` batch_size).

(** The inner loop, [for record in batch]: one request per record, every
    exception counted. *)
Definition post_record (net : nat → response) (st : progress) (record : aggregate)
  : progress :=
  match net (requests st) with
  | Accepted => Progress (S (inserted st)) (errors st) (S (requests st))
  | _ => Progress (inserted st) (S (errors st)) (S (requests st))
  end.

(** The body of the loop over the batches; [None] when the handler of
    [HTTPError] itself raises, on a body that cannot be read. *)
Definition post_batch (net : nat → response) (st : progress) (batch : list aggregate)
  : option progress :=
  match net (requests st) with
  | Accepted =>
      Some (Progress (inserted st + length batch) (errors st) (S (requests st)))
  | HTTPError body_readable =>
      if body_readable then
        Some (fold_left (post_record net) batch
                (Progress (inserted st) (errors st) (S (requests st))))
      else None
  | OtherError =>
      Some (Progress (inserted st) (errors st + length batch) (S (requests st)))
  end.

(** The run up to the batch that starts at [i]. *)
Definition post_from (net : nat → response) (records : list aggregate)
    (ost : option progress) (i : nat) : option progress :=
  st ← ost; post_batch net st (take batch_size (drop i records)).

Definition run_batches (net : nat → response) (records : list aggregate)
  : option progress :=
  fold_left (post_from net records) (range_step (length records))
    (Some (Progress 0 0 0)).

Definition insert_to_supabase (net : nat → response) (records : list aggregate)
  : option (nat * nat) :=
  st ← run_batches net records; Some (inserted st, errors st).

End Upload.

(** * Properties *)

Import Processor Spec Samples.

(** ** Strings *)

Lemma str_app_cons a (s t : string) : String a s +:+ t = String a (s +:+ t).
Proof. reflexivity. Qed.

Lemma str_app_nil_l (s : string) : "" +:+ s = s.
Proof. reflexivity. Qed.

Lemma str_app_nil_r (s : string) : s +:+ "" = s.
Proof. induction s as [|a s IH]; [done|]. by rewrite str_app_cons, IH. Qed.

Lemma str_app_assoc (s t u : string) : (s +:+ t) +:+ u = s +:+ (t +:+ u).
Proof. induction s as [|a s IH]; [done|]. by rewrite !str_app_cons, IH. Qed.

Lemma str_length_app (s t : string) :
  String.length (s +:+ t) = (String.length s + String.length t)%nat.
Proof. induction s as [|a s IH]; [done|]. rewrite str_app_cons. simpl. by rewrite IH. Qed.

Lemma take_app_length (t s : string) :
  PyStr.take (String.length (t +:+ s) - String.length s) (t +:+ s) = t.
Proof.
  rewrite str_length_app.
  replace (String.length t + String.length s - String.length s)%nat
    with (String.length t) by lia.
  induction t as [|a t IH]; [by destruct s|].
  rewrite str_app_cons. simpl. by rewrite IH.
Qed.

Lemma all_app p (s t : string) :
  PyStr.all p (s +:+ t) = PyStr.all p s && PyStr.all p t.
Proof.
  induction s as [|a s IH]; [done|]. rewrite str_app_cons. simpl.
  rewrite IH. by rewrite andb_assoc.
Qed.

Lemma all_impl (p q : ascii → bool) (s : string) :
  (∀ a, p a = true → q a = true) → PyStr.all p s = true → PyStr.all q s = true.
Proof.
  intros Hpq. induction s as [|a s IH]; [done|]. simpl.
  intros [H1 H2]%andb_true_iff. rewrite (Hpq a H1). by apply IH.
Qed.


(** ** The matcher *)

Section Matcher.
Import Regex.

Lemma star_sound c s s' :
  s' ∈ star c s → ∃ t, s = t +:+ s' ∧ PyStr.all (cset_match c) t = true.
Proof.
  revert s'. induction s as [|a s IH]; intros s'; simpl.
  - intros ->%list_elem_of_singleton. by exists "".
  - destruct (cset_match c a) eqn:Hc.
    + intros [Hin| ->%list_elem_of_singleton]%elem_of_app.
      * destruct (IH _ Hin) as (t & -> & Ht). exists (String a t).
        split; [done|]. cbn. by rewrite Hc.
      * by exists "".
    + intros ->%list_elem_of_singleton. by exists "".
Qed.

Lemma ends_sound r st st' :
  st' ∈ ends r st → ∃ t, st.2 = t +:+ st'.2 ∧ lang r t.
Proof.
  revert st st'. induction r as [|c|r1 IH1 r2 IH2|r1 IH1 r2 IH2|r1 IH1|c|c| |r1 IH1];
    intros st st'; simpl.
  - intros ->%list_elem_of_singleton. by exists "".
  - destruct st.2 as [|a s'] eqn:Hs; [by intros ?%elem_of_nil|].
    destruct (cset_match c a) eqn:Hc; [|by intros ?%elem_of_nil].
    intros ->%list_elem_of_singleton. exists (String a ""). split; [done|].
    by exists a.
  - intros (st1 & H2 & H1)%list_elem_of_bind.
    destruct (IH1 _ _ H1) as (t1 & E1 & L1).
    destruct (IH2 _ _ H2) as (t2 & E2 & L2).
    exists (t1 +:+ t2). split; [|by exists t1, t2].
    by rewrite E1, E2, str_app_assoc.
  - intros [H|H]%elem_of_app.
    + destruct (IH1 _ _ H) as (t & E & L). exists t. auto.
    + destruct (IH2 _ _ H) as (t & E & L). exists t. auto.
  - intros [H| ->%list_elem_of_singleton]%elem_of_app.
    + destruct (IH1 _ _ H) as (t & E & L). exists t. auto.
    + exists "". auto.
  - intros (s' & -> & H)%list_elem_of_fmap. by apply star_sound.
  - destruct st.2 as [|a s'] eqn:Hs; [by intros ?%elem_of_nil|].
    destruct (cset_match c a) eqn:Hc; [|by intros ?%elem_of_nil].
    intros (s'' & -> & H)%list_elem_of_fmap.
    destruct (star_sound _ _ _ H) as (t & -> & Ht).
    exists (String a t). split; [done|]. by exists a, t.
  - destruct (at_end st.2); [|by intros ?%elem_of_nil].
    intros ->%list_elem_of_singleton. by exists "".
  - intros (st1 & -> & H)%list_elem_of_fmap. simpl. by apply IH1.
Qed.

Lemma ends_group_free r st st' :
  group_free r = true → st' ∈ ends r st → st'.1 = st.1.
Proof.
  revert st st'. induction r as [|c|r1 IH1 r2 IH2|r1 IH1 r2 IH2|r1 IH1|c|c| |r1 IH1];
    intros st st'; simpl; intros Hg.
  - by intros ->%list_elem_of_singleton.
  - destruct st.2 as [|a s']; [by intros ?%elem_of_nil|].
    destruct (cset_match c a); [|by intros ?%elem_of_nil].
    by intros ->%list_elem_of_singleton.
  - apply andb_true_iff in Hg as [Hg1 Hg2].
    intros (st1 & H2 & H1)%list_elem_of_bind.
    by rewrite (IH2 _ _ Hg2 H2), (IH1 _ _ Hg1 H1).
  - apply andb_true_iff in Hg as [Hg1 Hg2].
    intros [H|H]%elem_of_app; eauto.
  - intros [H| ->%list_elem_of_singleton]%elem_of_app; eauto.
  - by intros (s' & -> & H)%list_elem_of_fmap.
  - destruct st.2 as [|a s']; [by intros ?%elem_of_nil|].
    destruct (cset_match c a); [|by intros ?%elem_of_nil].
    by intros (s'' & -> & H)%list_elem_of_fmap.
  - destruct (at_end st.2); [|by intros ?%elem_of_nil].
    by intros ->%list_elem_of_singleton.
  - done.
Qed.

(** Group 1 holds exactly the text its pattern consumed. *)
Lemma ends_group r st st' :
  st' ∈ ends (Group r) st →
  ∃ t, st.2 = t +:+ st'.2 ∧ lang r t ∧ st'.1 = Some t.
Proof.
  simpl. intros (st1 & -> & H)%list_elem_of_fmap.
  destruct (ends_sound _ _ _ H) as (t & E & L).
  exists t. simpl. split_and!; [done..|].
  by rewrite E, take_app_length.
Qed.

(** A pattern made of a group followed by a group-free rest. *)
Lemma ends_group_then r rest st st' :
  group_free rest = true → st' ∈ ends (Seq (Group r) rest) st →
  ∃ t, lang r t ∧ st'.1 = Some t.
Proof.
  intros Hg. cbn [ends]. intros (st1 & H2 & H1)%list_elem_of_bind.
  destruct (ends_group _ _ _ H1) as (t & _ & L & E).
  exists t. split; [done|]. by rewrite (ends_group_free _ _ _ Hg H2).
Qed.

Lemma search_Some r s g :
  search r s = Some g →
  ∃ pre s' st l, s = pre +:+ s' ∧ ends r (None, s') = st :: l ∧ g = st.1.
Proof.
  induction s as [|a s IH]; simpl.
  - destruct (ends r (None, "")) as [|st l] eqn:E; [done|].
    intros [= <-]. by exists "", "", st, l.
  - destruct (ends r (None, String a s)) as [|st l] eqn:E.
    + intros H. destruct (IH H) as (pre & s' & st & l & -> & E' & ->).
      by exists (String a pre), s', st, l.
    + intros [= <-]. by exists "", (String a s), st, l.
Qed.




End Matcher.

(** ** [float] on the text of group 1 *)

Section FloatOfNumber.
Import PyStr PyFloat.

Lemma lstrip_nospace s : all not_space s = true → lstrip s = s.
Proof.
  destruct s as [|a s]; [done|]. simpl. unfold not_space at 1.
  by destruct (is_space a).
Qed.

Lemma rstrip_nospace s : all not_space s = true → rstrip s = s.
Proof.
  induction s as [|a s IH]; [done|]. simpl.
  intros [Ha Hs]%andb_true_iff. rewrite (IH Hs).
  unfold not_space in Ha. destruct s; [|done]. by destruct (is_space a).
Qed.

Lemma strip_nospace s : all not_space s = true → strip s = s.
Proof. intros H. unfold strip. by rewrite lstrip_nospace, rstrip_nospace. Qed.

Lemma digit_not_space a : is_digit a = true → not_space a = true.
Proof. destruct a as [[] [] [] [] [] [] [] []]; done. Qed.

Lemma sign_digit a s : is_digit a = true → sign (String a s) = (false, String a s).
Proof. destruct a as [[] [] [] [] [] [] [] []]; done. Qed.

Lemma same_letter_dot b : Regex.same_letter b "." = true → b = "."%char.
Proof. destruct b as [[] [] [] [] [] [] [] []]; done. Qed.

Lemma digitpart_rest_digits d rest :
  all is_digit d = true → stops rest →
  ∃ ds, digitpart_rest (d +:+ rest) = (ds, rest).
Proof.
  intros Hd Hstop. induction d as [|a d IH].
  - rewrite str_app_nil_l. destruct rest as [|c r]; [by exists []|].
    destruct Hstop as [Hc Hne]. exists []. simpl. rewrite Hc.
    by rewrite decide_False.
  - simpl in Hd. apply andb_true_iff in Hd as [Ha Hd].
    destruct (IH Hd) as (ds & E). rewrite str_app_cons. simpl.
    rewrite Ha, E. by eexists.
Qed.

Lemma digitpart_digits a d rest :
  is_digit a = true → all is_digit d = true → stops rest →
  ∃ ds, digitpart (String a (d +:+ rest)) = Some (ds, rest).
Proof.
  intros Ha Hd Hstop. destruct (digitpart_rest_digits d rest Hd Hstop) as (ds & E).
  unfold digitpart. rewrite Ha, E. by eexists.
Qed.

Lemma number_digits a d :
  is_digit a = true → all is_digit d = true →
  ∃ m k, number (String a d) = Some (m, k, "").
Proof.
  intros Ha Hd. destruct (digitpart_digits a d "" Ha Hd I) as (ds & E).
  rewrite str_app_nil_r in E. unfold number. rewrite E. by eexists _, _.
Qed.

Lemma number_digits_dot a d1 d2 :
  is_digit a = true → all is_digit d1 = true → all is_digit d2 = true →
  ∃ m k, number (String a (d1 +:+ String "." d2)) = Some (m, k, "").
Proof.
  intros Ha Hd1 Hd2.
  destruct (digitpart_digits a d1 (String "." d2) Ha Hd1) as (ds & E); [done|].
  unfold number. rewrite E.
  destruct d2 as [|c d2]; [by eexists _, _|].
  simpl in Hd2. apply andb_true_iff in Hd2 as [Hc Hd2].
  destruct (digitpart_digits c d2 "" Hc Hd2 I) as (fs & F).
  rewrite str_app_nil_r in F. rewrite F. by eexists _, _.
Qed.

Lemma of_string_number s m k :
  all not_space s = true → sign s = (false, s) → number s = Some (m, k, "") →
  is_Some (of_string s).
Proof.
  intros Hs Hsign Hnum. unfold of_string. rewrite strip_nospace by done.
  rewrite Hsign, Hnum. simpl. by eexists.
Qed.

(** The shape of the numeric token: digits, an optional point, digits. *)
Lemma lang_number_token t :
  Regex.lang number_token t →
  ∃ a d1 d2, is_digit a = true ∧ all is_digit d1 = true ∧ all is_digit d2 = true
             ∧ (t = String a (d1 +:+ d2) ∨ t = String a (d1 +:+ String "." d2)).
Proof.
  intros (t1 & t2 & -> & (a & d1 & -> & Ha & Hd1) & (u1 & d2 & -> & Hopt & Hd2)).
  simpl in *. exists a, d1, d2. split_and!; [done..|].
  destruct Hopt as [->|(b & -> & Hb)].
  - left. by rewrite str_app_nil_l, str_app_cons.
  - right. apply same_letter_dot in Hb as ->. by rewrite !str_app_cons.
Qed.

Lemma number_token_is_float t :
  Regex.lang number_token t → is_Some (of_string t).
Proof.
  intros (a & d1 & d2 & Ha & Hd1 & Hd2 & [->| ->])%lang_number_token.
  - destruct (number_digits a (d1 +:+ d2)) as (m & k & E); [done| |].
    { by rewrite all_app, Hd1, Hd2. }
    eapply of_string_number; [|by apply sign_digit|done].
    simpl. rewrite (digit_not_space a Ha). simpl.
    apply (all_impl is_digit); [apply digit_not_space|].
    by rewrite all_app, Hd1, Hd2.
  - destruct (number_digits_dot a d1 d2) as (m & k & E); [done..|].
    eapply of_string_number; [|by apply sign_digit|done].
    simpl. rewrite (digit_not_space a Ha). simpl. rewrite all_app.
    rewrite (all_impl is_digit not_space d1 digit_not_space Hd1). simpl.
    apply (all_impl is_digit); [apply digit_not_space|done].
Qed.

End FloatOfNumber.

(** Every pattern of the table is the numeric group followed by a rest
    without groups. *)
Lemma patterns_shape :
  Forall (λ p : Regex.regex * Q,
            ∃ rest, p.1 = Regex.Seq number_group rest
                    ∧ Regex.group_free rest = true) patterns.
Proof. repeat constructor; eexists; split; reflexivity. Qed.

(** [float(match.group(1))] never raises. *)
Lemma number_group_is_float pattern multiplier title g :
  (pattern, multiplier) ∈ patterns → Regex.search pattern title = Some g →
  ∃ t v, g = Some t ∧ PyFloat.of_string t = Some v.
Proof.
  intros Hin Hs.
  pose proof (proj1 (Forall_forall _ _) patterns_shape _ Hin) as (rest & E & Hg).
  simpl in E. subst pattern. unfold number_group in *.
  destruct (search_Some _ _ _ Hs) as (pre & s' & st & l & _ & E & ->).
  destruct (ends_group_then number_token rest (None, s') st Hg) as (t & L & Ecap).
  { rewrite E. apply list_elem_of_here. }
  destruct (number_token_is_float t L) as (v & Hv). by exists t, v.
Qed.

(** ** [extract_weight] *)


(** One turn of the loop, in terms of the weight of the rule's match. *)
Lemma extract_weight_loop_cons pattern multiplier pats title :
  (pattern, multiplier) ∈ patterns →
  extract_weight_loop ((pattern, multiplier) :: pats) title =
    match match_weight pattern multiplier title with
    | Some v =>
        if weight_in_bounds v then Some (PyFloat.round v 3)
        else extract_weight_loop pats title
    | None => extract_weight_loop pats title
    end.
Proof.
  intros Hin. simpl. unfold match_weight.
  destruct (Regex.search pattern title) as [g|] eqn:Hs; simpl; [|done].
  destruct (number_group_is_float _ _ _ _ Hin Hs) as (t & v & -> & Hv).
  simpl. by rewrite Hv.
Qed.


Lemma extract_weight_loop_Some pats title w :
  pats ⊆ patterns →
  extract_weight_loop pats title = Some w ↔
  ∃ before pattern multiplier after v,
    pats = before ++ (pattern, multiplier) :: after
    ∧ Forall (passes_over title) before
    ∧ match_weight pattern multiplier title = Some v
    ∧ weight_in_bounds v = true
    ∧ w = PyFloat.round v 3.
Proof.
  induction pats as [|[pattern multiplier] pats IH]; intros Hsub.
  { split; [done|]. intros (before & ? & ? & ? & ? & E & _). by destruct before. }
  assert ((pattern, multiplier) ∈ patterns) as Hin
    by (apply Hsub, list_elem_of_here).
  assert (pats ⊆ patterns) as Hsub'
    by (intros x Hx; apply Hsub; by apply list_elem_of_further).
  rewrite extract_weight_loop_cons by done.
  assert (
    (match_weight pattern multiplier title = None
     ∨ ∃ v, match_weight pattern multiplier title = Some v
            ∧ weight_in_bounds v = false) →
    (extract_weight_loop pats title = Some w ↔
     ∃ before pattern0 multiplier0 after v,
       (pattern, multiplier) :: pats = before ++ (pattern0, multiplier0) :: after
       ∧ Forall (passes_over title) before
       ∧ match_weight pattern0 multiplier0 title = Some v
       ∧ weight_in_bounds v = true ∧ w = PyFloat.round v 3)) as Hskip.
  { intros Hover. rewrite (IH Hsub'). split.
    - intros (before & p0 & m0 & after & v & -> & Hb & Hm & Hv & ->).
      exists ((pattern, multiplier) :: before), p0, m0, after, v.
      split_and!; [done| |done..]. constructor; [|done].
      unfold passes_over. simpl.
      destruct Hover as [->|(v' & -> & Hv')]; done.
    - intros (before & p0 & m0 & after & v & E & Hb & Hm & Hv & ->).
      destruct before as [|p before]; simpl in E.
      + injection E as <- <- <-.
        destruct Hover as [Hn|(v' & Hm' & Hv')]; congruence.
      + injection E as <- ->. apply Forall_cons in Hb as [_ Hb].
        by exists before, p0, m0, after, v. }
  destruct (match_weight pattern multiplier title) as [v|] eqn:Hm.
  - destruct (weight_in_bounds v) eqn:Hv.
    + split.
      * intros [= <-]. by exists [], pattern, multiplier, pats, v.
      * intros (before & p0 & m0 & after & v' & E & Hb & Hm' & Hv' & ->).
        destruct before as [|p before]; simpl in E.
        -- injection E as <- <- <-. congruence.
        -- injection E as <- ->. apply Forall_cons in Hb as [Hp _].
           unfold passes_over in Hp. simpl in Hp. rewrite Hm in Hp. congruence.
    + apply Hskip. right. by exists v.
  - apply Hskip. by left.
Qed.





(** ** Step 2: the filter and the de-duplication set *)

Section FilterStep.
Variables (slug : string) (filter_fn : string → bool).

Lemma filter_row_rejected st row :
  filter_fn (title_of row) = false →
  filter_row slug filter_fn st row =
    FilterState (filtered_data st) (seen_titles st) (kept st) (S (dropped st))
      (trace st ++ [EvFilter (title_of row)]).
Proof.
  intros Hf. unfold filter_row. fold (title_of row). by rewrite Hf.
Qed.

Lemma filter_row_duplicate st row :
  filter_fn (title_of row) = true → key_of row ∈ seen_titles st →
  filter_row slug filter_fn st row =
    FilterState (filtered_data st) (seen_titles st) (kept st) (S (dropped st))
      ((trace st ++ [EvFilter (title_of row)]) ++ [EvSeenTest (key_of row)]).
Proof.
  intros Hf Hin. unfold filter_row. fold (title_of row). rewrite Hf. simpl.
  fold (key_of row). by rewrite decide_True.
Qed.

Lemma filter_row_admitted st row :
  filter_fn (title_of row) = true → key_of row ∉ seen_titles st →
  filter_row slug filter_fn st row =
    FilterState
      (dd_append slug (<["material_slug" := slug]> row) (filtered_data st))
      ({[key_of row]} ∪ seen_titles st) (S (kept st)) (dropped st)
      (((trace st ++ [EvFilter (title_of row)]) ++ [EvSeenTest (key_of row)])
         ++ [EvSeenAdd (key_of row)]).
Proof.
  intros Hf Hin. unfold filter_row. fold (title_of row). rewrite Hf. simpl.
  fold (key_of row). by rewrite decide_False.
Qed.

(** The three ways through the loop body. *)
Lemma filter_row_cases st row :
  (filter_fn (title_of row) = false)
  ∨ (filter_fn (title_of row) = true ∧ key_of row ∈ seen_titles st)
  ∨ (filter_fn (title_of row) = true ∧ key_of row ∉ seen_titles st).
Proof.
  destruct (filter_fn (title_of row)); [|by left].
  destruct (decide (key_of row ∈ seen_titles st)); auto.
Qed.

Lemma filter_row_seen_mono st row :
  seen_titles st ⊆ seen_titles (filter_row slug filter_fn st row).
Proof.
  destruct (filter_row_cases st row) as [H|[[H1 H2]|[H1 H2]]].
  - by rewrite filter_row_rejected.
  - by rewrite filter_row_duplicate.
  - rewrite filter_row_admitted by done. simpl. set_solver.
Qed.

Lemma filter_rows_seen_mono rows st :
  seen_titles st ⊆ seen_titles (filter_rows slug filter_fn st rows).
Proof.
  revert st. induction rows as [|row rows IH]; intros st; [done|].
  unfold filter_rows in *. simpl. etrans; [apply (filter_row_seen_mono st row)|apply IH].
Qed.

Lemma blocked_mono seen seen' row :
  seen ⊆ seen' → blocked filter_fn seen row → blocked filter_fn seen' row.
Proof. intros Hsub [H|H]; [by left|right; set_solver]. Qed.

Lemma filter_row_blocked_after st row :
  blocked filter_fn (seen_titles (filter_row slug filter_fn st row)) row.
Proof.
  destruct (filter_row_cases st row) as [H|[[H1 H2]|[H1 H2]]].
  - by left.
  - right. by rewrite filter_row_duplicate.
  - right. rewrite filter_row_admitted by done. simpl. set_solver.
Qed.

Lemma filter_rows_blocked_after rows st :
  Forall (blocked filter_fn (seen_titles (filter_rows slug filter_fn st rows))) rows.
Proof.
  revert st. induction rows as [|row rows IH]; intros st; [constructor|].
  unfold filter_rows in *. simpl. constructor; [|apply IH].
  eapply blocked_mono; [|apply (filter_row_blocked_after st row)].
  apply filter_rows_seen_mono.
Qed.

(** A pass over rows that are all blocked admits nothing. *)
Lemma filter_rows_blocked_noop rows st :
  Forall (blocked filter_fn (seen_titles st)) rows →
  filtered_data (filter_rows slug filter_fn st rows) = filtered_data st
  ∧ seen_titles (filter_rows slug filter_fn st rows) = seen_titles st
  ∧ kept (filter_rows slug filter_fn st rows) = kept st.
Proof.
  revert st. induction rows as [|row rows IH]; intros st Hall; [done|].
  apply Forall_cons in Hall as [Hrow Hall].
  unfold filter_rows in *. simpl.
  assert (filtered_data (filter_row slug filter_fn st row) = filtered_data st
          ∧ seen_titles (filter_row slug filter_fn st row) = seen_titles st
          ∧ kept (filter_row slug filter_fn st row) = kept st) as (E1 & E2 & E3).
  { destruct (filter_row_cases st row) as [H|[[H1 H2]|[H1 H2]]].
    - by rewrite filter_row_rejected.
    - by rewrite filter_row_duplicate.
    - destruct Hrow as [Hrow|Hrow]; [congruence|done]. }
  destruct (IH (filter_row slug filter_fn st row)) as (F1 & F2 & F3).
  { by rewrite E2. }
  by rewrite F1, F2, F3.
Qed.

End FilterStep.

Section FilterFiles.
Variable config : ruleset_table.

Lemma filter_file_resolved st filename rows key slug f :
  get_material_key config filename = Some key →
  PyStr.truthy (Some key) = true →
  config_lookup config key = Some (slug, f) →
  filter_file config st (filename, rows) =
    let r1 := filter_rows slug f
                (FilterState (filtered_data (run st)) (seen_titles (run st)) 0 0
                   (trace (run st))) rows in
    Step2 r1 (filter_stats st ++ [(filename, (length rows, kept r1, dropped r1))])
      (warnings st).
Proof.
  intros Hk Ht Hl. unfold filter_file. rewrite Hk, Ht. simpl. by rewrite Hl.
Qed.

(** Either the file is passed over and the run state is untouched, or its
    rows go through [filter_rows] under the ruleset of its name. *)
Lemma filter_file_cases st file :
  (run (filter_file config st file) = run st
   ∧ filter_stats (filter_file config st file) = filter_stats st)
  ∨ ∃ key slug f,
      get_material_key config file.1 = Some key
      ∧ PyStr.truthy (Some key) = true
      ∧ config_lookup config key = Some (slug, f)
      ∧ filter_file config st file =
          let r1 := filter_rows slug f
                      (FilterState (filtered_data (run st)) (seen_titles (run st)) 0 0
                         (trace (run st))) file.2 in
          Step2 r1
            (filter_stats st ++ [(file.1, (length file.2, kept r1, dropped r1))])
            (warnings st).
Proof.
  destruct file as [filename rows]. cbn [fst snd].
  destruct (get_material_key config filename) as [key|] eqn:Hk.
  - destruct (PyStr.truthy (Some key)) eqn:Ht.
    + destruct (config_lookup config key) as [[slug f]|] eqn:Hl.
      * right. exists key, slug, f. split_and!; [done..|].
        by apply (filter_file_resolved st filename rows key).
      * left. unfold filter_file. rewrite Hk, Ht. simpl. by rewrite Hl.
    + left. unfold filter_file. by rewrite Hk, Ht.
  - left. unfold filter_file. by rewrite Hk.
Qed.

Lemma filter_file_seen_mono st file :
  seen_titles (run st) ⊆ seen_titles (run (filter_file config st file)).
Proof.
  destruct (filter_file_cases st file) as [[-> _]|(key & slug & f & _ & _ & _ & ->)]; [done|].
  simpl. apply (filter_rows_seen_mono slug f file.2 (FilterState _ _ _ _ _)).
Qed.

Lemma filter_files_seen_mono files st :
  seen_titles (run st) ⊆ seen_titles (run (filter_files config st files)).
Proof.
  revert st. induction files as [|file files IH]; intros st; [done|].
  unfold filter_files in *. simpl.
  etrans; [apply (filter_file_seen_mono st file)|apply IH].
Qed.

Lemma file_blocked_mono seen seen' file :
  seen ⊆ seen' → file_blocked config seen file → file_blocked config seen' file.
Proof.
  intros Hsub Hb key slug f Hk Ht Hl. specialize (Hb key slug f Hk Ht Hl).
  eapply Forall_impl; [exact Hb|]. intros row. by apply blocked_mono.
Qed.

Lemma filter_file_blocked_after st file :
  file_blocked config (seen_titles (run (filter_file config st file))) file.
Proof.
  intros key slug f Hk Ht Hl. destruct file as [filename rows]. cbn [fst snd] in *.
  rewrite (filter_file_resolved st filename rows key slug f) by done.
  simpl. apply filter_rows_blocked_after.
Qed.

Lemma filter_files_blocked_after files st :
  Forall (file_blocked config (seen_titles (run (filter_files config st files)))) files.
Proof.
  revert st. induction files as [|file files IH]; intros st; [constructor|].
  unfold filter_files in *. simpl. constructor; [|apply IH].
  eapply file_blocked_mono; [|apply (filter_file_blocked_after st file)].
  apply filter_files_seen_mono.
Qed.

Lemma filter_file_blocked_noop st file :
  file_blocked config (seen_titles (run st)) file →
  filtered_data (run (filter_file config st file)) = filtered_data (run st)
  ∧ seen_titles (run (filter_file config st file)) = seen_titles (run st)
  ∧ ∃ extra, filter_stats (filter_file config st file) = filter_stats st ++ extra
             ∧ Forall (λ e, kept_of e = 0%nat) extra.
Proof.
  intros Hb.
  destruct (filter_file_cases st file)
    as [[E1 E2]|(key & slug & f & Hk & Ht & Hl & E)].
  - rewrite E1, E2. split_and!; [done..|]. exists []. by rewrite app_nil_r.
  - rewrite E. simpl.
    destruct (filter_rows_blocked_noop slug f file.2
                (FilterState (filtered_data (run st)) (seen_titles (run st)) 0 0
                   (trace (run st)))) as (F1 & F2 & F3).
    { apply (Hb key slug f Hk Ht Hl). }
    simpl in *. split_and!; [done..|].
    eexists [_]. split; [done|]. constructor; [|constructor].
    unfold kept_of. simpl. exact F3.
Qed.

Lemma filter_files_blocked_noop files st :
  Forall (file_blocked config (seen_titles (run st))) files →
  filtered_data (run (filter_files config st files)) = filtered_data (run st)
  ∧ seen_titles (run (filter_files config st files)) = seen_titles (run st)
  ∧ ∃ extra, filter_stats (filter_files config st files) = filter_stats st ++ extra
             ∧ Forall (λ e, kept_of e = 0%nat) extra.
Proof.
  revert st. induction files as [|file files IH]; intros st Hall.
  { split_and!; [done..|]. exists []. by rewrite app_nil_r. }
  apply Forall_cons in Hall as [Hfile Hall].
  unfold filter_files in *. simpl.
  destruct (filter_file_blocked_noop st file Hfile) as (E1 & E2 & extra1 & E3 & K1).
  destruct (IH (filter_file config st file)) as (F1 & F2 & extra2 & F3 & K2).
  { by rewrite E2. }
  rewrite F1, F2, F3, E1, E2, E3. split_and!; [done..|].
  exists (extra1 ++ extra2). rewrite app_assoc. split; [done|].
  by apply Forall_app.
Qed.

End FilterFiles.

Lemma dd_append_recorded slug row d : recorded slug row (dd_append slug row d).
Proof.
  induction d as [|[k rows] d IH]; simpl.
  - exists [row]. split; apply list_elem_of_here.
  - destruct (decide (k = slug)) as [->|Hne].
    + exists (rows ++ [row]). split; [apply list_elem_of_here|].
      apply elem_of_app. right. apply list_elem_of_here.
    + destruct IH as (rows' & H1 & H2). exists rows'. split; [|done].
      by apply list_elem_of_further.
Qed.

Lemma filter_row_trace slug f st row :
  trace (filter_row slug f st row) = trace st ++ row_events f (seen_titles st) row.
Proof.
  unfold row_events.
  destruct (filter_row_cases f st row) as [H|[[H1 H2]|[H1 H2]]].
  - rewrite filter_row_rejected by done. by rewrite H.
  - rewrite filter_row_duplicate by done. rewrite H1, decide_True by done.
    simpl. by rewrite <- app_assoc.
  - rewrite filter_row_admitted by done. rewrite H1, decide_False by done.
    simpl. by rewrite <- !app_assoc.
Qed.

(** ** The order of evaluation, rejected rows and repeated passes *)

(** C6, as amended.  For every row the loop body evaluates the classification
    predicate first; the membership test is evaluated only when the predicate
    holds, and the key is inserted only when the test fails. *)
Theorem filter_precedes_dedup slug f st row :
  events_of slug f st row = row_events f (seen_titles st) row
  ∧ ∃ rest, events_of slug f st row = EvFilter (title_of row) :: rest
            ∧ (f (title_of row) = false → rest = [])
            ∧ (f (title_of row) = true → key_of row ∈ seen_titles st →
               rest = [EvSeenTest (key_of row)])
            ∧ (f (title_of row) = true → key_of row ∉ seen_titles st →
               rest = [EvSeenTest (key_of row); EvSeenAdd (key_of row)]).
Proof.
  assert (events_of slug f st row = row_events f (seen_titles st) row) as E.
  { unfold events_of. rewrite filter_row_trace. by rewrite drop_app_length. }
  split; [done|]. rewrite E. unfold row_events. eexists. split; [done|].
  split_and!.
  - by intros ->.
  - intros -> Hin. by rewrite decide_True.
  - intros -> Hin. by rewrite decide_False.
Qed.

Lemma filter_precedes_dedup_witness :
  events_of "trinitite" trinitite_filter fresh trinitite_row =
    [EvFilter "trinitite 5g"; EvSeenTest "trinitite 5g"; EvSeenAdd "trinitite 5g"].
Proof.
  destruct (filter_precedes_dedup "trinitite" trinitite_filter fresh trinitite_row)
    as (_ & rest & E & _ & _ & H).
  rewrite E, H; [reflexivity|reflexivity|].
  simpl. apply not_elem_of_empty.
Defined.

(** C6, as stated, fails: on a fresh run the first event of an accepted row
    is the predicate, and no membership test precedes it. *)
Lemma dedup_before_filter_fails :
  events_of "trinitite" trinitite_filter fresh trinitite_row
  = [EvFilter "trinitite 5g"; EvSeenTest "trinitite 5g"; EvSeenAdd "trinitite 5g"]
  ∧ ¬ dedup_before_filter (events_of "trinitite" trinitite_filter fresh trinitite_row).
Proof.
  assert (events_of "trinitite" trinitite_filter fresh trinitite_row =
          [EvFilter "trinitite 5g"; EvSeenTest "trinitite 5g";
           EvSeenAdd "trinitite 5g"]) as E.
  { unfold events_of. rewrite filter_row_trace, drop_app_length.
    unfold row_events.
    assert (trinitite_filter (title_of trinitite_row) = true) as -> by reflexivity.
    rewrite decide_False by apply not_elem_of_empty. reflexivity. }
  split; [done|]. rewrite E.
  intros (pre & post & key & title & E' & Hin).
  destruct pre as [|e1 pre]; [by apply elem_of_nil in Hin|].
  destruct pre as [|e2 pre]; [discriminate|].
  destruct pre as [|e3 pre]; [discriminate|].
  destruct pre as [|e4 pre]; discriminate.
Qed.

(** C7.  A row the predicate rejects leaves the de-duplication set, the
    kept rows and the kept counter as they were, so a later row with the
    same key that its own ruleset accepts is admitted; an accepted row goes
    through [admit_key]: a present key changes nothing, an absent key is inserted
    and the row is kept. *)
Theorem rejected_listing_keeps_dedup_set slug f st row slug2 f2 row2 :
  (f (title_of row) = false →
     seen_titles (filter_row slug f st row) = seen_titles st
     ∧ filtered_data (filter_row slug f st row) = filtered_data st
     ∧ kept (filter_row slug f st row) = kept st)
  ∧ (f (title_of row) = true →
     seen_titles (filter_row slug f st row) = (admit_key (key_of row) (seen_titles st)).2
     ∧ kept (filter_row slug f st row) =
         (kept st + if (admit_key (key_of row) (seen_titles st)).1 then 1 else 0)%nat
     ∧ (key_of row ∈ seen_titles st →
          admit_key (key_of row) (seen_titles st) = (false, seen_titles st)
          ∧ filtered_data (filter_row slug f st row) = filtered_data st)
     ∧ (key_of row ∉ seen_titles st →
          admit_key (key_of row) (seen_titles st) = (true, {[key_of row]} ∪ seen_titles st)
          ∧ recorded slug (<["material_slug" := slug]> row)
              (filtered_data (filter_row slug f st row))))
  ∧ (f (title_of row) = false → key_of row2 = key_of row →
     f2 (title_of row2) = true → key_of row ∉ seen_titles st →
     let st2 := filter_row slug2 f2 (filter_row slug f st row) row2 in
     key_of row ∈ seen_titles st2
     ∧ kept st2 = S (kept st)
     ∧ recorded slug2 (<["material_slug" := slug2]> row2) (filtered_data st2)).
Proof.
  split_and!.
  - intros Hf. by rewrite filter_row_rejected.
  - intros Hf. unfold admit_key.
    destruct (decide (key_of row ∈ seen_titles st)) as [Hin|Hnin].
    + rewrite filter_row_duplicate by done. simpl. split_and!; [done|lia|done|done].
    + rewrite filter_row_admitted by done. simpl. split_and!; [done|lia|done|].
      intros _. split; [done|]. apply dd_append_recorded.
  - intros Hf Hkey Hf2 Hnin st2. subst st2.
    rewrite (filter_row_rejected slug f st row) by done.
    rewrite filter_row_admitted; simpl; [|done|by rewrite Hkey].
    rewrite Hkey. split_and!; [set_solver|done|apply dd_append_recorded].
Qed.

Lemma rejected_listing_keeps_dedup_set_witness :
  seen_titles (filter_row "trinitite" trinitite_filter fresh red_bowl) = ∅
  ∧ kept (filter_row "uranium-glass" uranium_glass_filter
            (filter_row "trinitite" trinitite_filter fresh red_bowl) red_bowl_caps) = 1%nat
  ∧ seen_titles (filter_row "uranium-glass" uranium_glass_filter fresh red_bowl_caps)
      = {[ "red uranium glass bowl" ]} ∪ ∅.
Proof.
  destruct (rejected_listing_keeps_dedup_set "trinitite" trinitite_filter fresh
              red_bowl "uranium-glass" uranium_glass_filter red_bowl_caps) as (H1 & _ & H3).
  destruct (rejected_listing_keeps_dedup_set "uranium-glass" uranium_glass_filter fresh
              red_bowl_caps "" uranium_glass_filter red_bowl_caps) as (_ & H2 & _).
  split_and!.
  - apply H1. reflexivity.
  - apply H3; [reflexivity|reflexivity|reflexivity|apply not_elem_of_empty].
  - destruct H2 as (E & _); [reflexivity|]. rewrite E. unfold admit_key.
    rewrite decide_False by apply not_elem_of_empty. reflexivity.
Defined.

(** C9.  A second pass of step 2 over the same files, with the set of seen
    keys (and everything else) carried over, keeps no row: the kept rows and
    the set of keys are those of the first pass, and every statistics entry
    the second pass adds has a kept count of zero.  The same holds for the
    rows of one file fed twice under one ruleset. *)
Theorem second_pass_admits_nothing config raw_data st slug f rows rst :
  (let st1 := filter_files config st raw_data in
   let st2 := filter_files config st1 raw_data in
   filtered_data (run st2) = filtered_data (run st1)
   ∧ seen_titles (run st2) = seen_titles (run st1)
   ∧ ∃ extra, filter_stats st2 = filter_stats st1 ++ extra
              ∧ Forall (λ e, kept_of e = 0%nat) extra)
  ∧ (let r1 := filter_rows slug f rst rows in
     let r2 := filter_rows slug f rst (rows ++ rows) in
     filtered_data r2 = filtered_data r1
     ∧ seen_titles r2 = seen_titles r1
     ∧ kept r2 = kept r1).
Proof.
  split.
  - intros st1 st2. apply filter_files_blocked_noop.
    apply filter_files_blocked_after.
  - intros r1 r2. subst r1 r2. unfold filter_rows. rewrite fold_left_app.
    apply (filter_rows_blocked_noop slug f rows). apply filter_rows_blocked_after.
Qed.

(** ** Step 3: the normaliser *)

Lemma ltb_lt x y : PyFloat.ltb x y = true ↔ (x < y)%Q.
Proof.
  unfold PyFloat.ltb. rewrite Qlt_alt. by destruct (x ?= y)%Q.
Qed.

Lemma leb_le x y : PyFloat.leb x y = true ↔ (x <= y)%Q.
Proof.
  unfold PyFloat.leb. rewrite Qle_alt. by destruct (x ?= y)%Q.
Qed.

Lemma positive_truthy m : PyFloat.ltb 0 m = true → PyFloat.truthy m = true.
Proof.
  intros H%ltb_lt. unfold PyFloat.truthy.
  destruct (Qeq_bool m 0) eqn:E; [|done].
  apply Qeq_bool_iff in E. rewrite E in H. by apply Qlt_irrefl in H.
Qed.

Section Normaliser.
Variable datetime : Type.
Variable strptime : string → string → option datetime.
Variable strftime : datetime → string → string.

Abbreviation normalize_row' := (normalize_row datetime strptime strftime).
Abbreviation normalize' := (normalize datetime strptime strftime).


Lemma elem_of_normalize filtered c :
  c ∈ normalize' filtered →
  ∃ slug rows row, (slug, rows) ∈ filtered ∧ row ∈ rows
                   ∧ normalize_row' slug row = Some c.
Proof.
  unfold normalize. intros ([slug rows] & Hc & Hin)%list_elem_of_bind.
  apply list_elem_of_omap in Hc as (row & Hrow & Hc).
  by exists slug, rows, row.
Qed.




End Normaliser.





(** ** The loader and the monthly aggregator *)

Section Aggregator.
Import Importer.



(** *** The groups *)

Lemma group_append_lookup g r k :
  default [] (group_append g r !! k)
  = default [] (g !! k) ++ group_values k [r].
Proof.
  unfold group_append, group_values. rewrite filter_cons, filter_nil.
  destruct (month_key r) as [key|] eqn:Hk.
  - destruct (decide (key = k)) as [->|Hne].
    + rewrite lookup_insert_eq, decide_True by done. done.
    + rewrite lookup_insert_ne, decide_False by congruence.
      simpl. by rewrite app_nil_r.
  - rewrite decide_False by done. simpl. by rewrite app_nil_r.
Qed.

Lemma group_values_cons k r rs :
  group_values k (r :: rs) = group_values k [r] ++ group_values k rs.
Proof.
  unfold group_values. rewrite !filter_cons, filter_nil.
  by destruct (decide (month_key r = Some k)).
Qed.

Lemma fold_group_lookup rs g k :
  default [] (fold_left group_append rs g !! k)
  = default [] (g !! k) ++ group_values k rs.
Proof.
  revert g. induction rs as [|r rs IH]; intros g; simpl.
  - unfold group_values. rewrite filter_nil. simpl. by rewrite app_nil_r.
  - rewrite IH, group_append_lookup, (group_values_cons k r rs).
    by rewrite app_assoc.
Qed.

Lemma group_append_nonempty g r :
  (∀ k, g !! k ≠ Some []) → ∀ k, group_append g r !! k ≠ Some [].
Proof.
  intros Hg k. unfold group_append. destruct (month_key r) as [key|]; [|done].
  destruct (decide (key = k)) as [->|Hne].
  - rewrite lookup_insert_eq. intros [= H]. by apply app_nil in H as [_ ?].
  - by rewrite lookup_insert_ne.
Qed.

Lemma fold_group_nonempty rs g :
  (∀ k, g !! k ≠ Some []) → ∀ k, fold_left group_append rs g !! k ≠ Some [].
Proof.
  revert g. induction rs as [|r rs IH]; intros g Hg; [done|]. simpl.
  by apply IH, group_append_nonempty.
Qed.

(** The groups are exactly the non-empty classes of records by key. *)
Lemma group_lookup rs k prices :
  group rs !! k = Some prices ↔ prices = group_values k rs ∧ prices ≠ [].
Proof.
  pose proof (fold_group_lookup rs ∅ k) as Hl.
  pose proof (fold_group_nonempty rs ∅) as Hn.
  rewrite lookup_empty in Hl. simpl in Hl. fold (group rs) in Hl, Hn.
  split.
  - intros E. rewrite E in Hl. simpl in Hl. split; [done|].
    intros ->. by apply (Hn ltac:(by intros k'; rewrite lookup_empty) k).
  - intros [-> Hne]. destruct (group rs !! k) as [l|]; simpl in Hl; congruence.
Qed.


(** A record without a key changes nothing. *)
Lemma group_values_no_key k r before after :
  month_key r = None →
  group_values k (before ++ r :: after) = group_values k (before ++ after).
Proof.
  intros Hk. unfold group_values.
  rewrite !filter_app, filter_cons, decide_False; [done|]. by rewrite Hk.
Qed.

Lemma group_no_key r before after :
  month_key r = None → group (before ++ r :: after) = group (before ++ after).
Proof.
  intros Hk. apply map_eq. intros k. apply option_eq. intros prices.
  by rewrite !group_lookup, (group_values_no_key k r before after Hk).
Qed.

(** A null date, an empty date and a date shorter than seven characters
    give no key: such a record is in no bucket. *)
Lemma short_date_in_no_bucket r :
  (sale_date r = None
   ∨ ∃ date, sale_date r = Some date ∧ (String.length date < 7)%nat) →
  month_key r = None ∧ in_no_bucket r.
Proof.
  intros Hd.
  assert (month_key r = None) as Hk.
  { unfold month_key. destruct Hd as [->|(date & -> & Hlen)]; [done|].
    rewrite bool_decide_false by lia. by rewrite andb_false_r. }
  split; [done|]. intros before after. unfold calculate_monthly_medians.
  by rewrite (group_no_key r before after Hk).
Qed.

End Aggregator.

(** *** Orders *)

#[local] Instance float_le_total : Total Importer.float_le.
Proof.
  intros x y. unfold Importer.float_le.
  destruct (Qlt_le_dec x y) as [H|H].
  - left. apply Is_true_true, leb_le. by apply Qlt_le_weak.
  - right. by apply Is_true_true, leb_le.
Qed.

#[local] Instance key_le_total : Total Importer.key_le.
Proof.
  intros [a1 b1] [a2 b2]. unfold Importer.key_le. simpl.
  destruct (decide (a1 = a2)) as [->|Hne].
  - destruct (total String.le b1 b2); [left|right]; by right.
  - destruct (total String.le a1 a2); [left|right]; left; split; auto.
Qed.

#[local] Instance key_le_trans : Transitive Importer.key_le.
Proof.
  intros [a1 b1] [a2 b2] [a3 b3]. unfold Importer.key_le. simpl.
  intros [[Hne1 H1]|[-> H1]] [[Hne2 H2]|[-> H2]].
  - left. split; [|by etrans]. intros ->.
    apply Hne1. by apply (anti_symm String.le).
  - left. done.
  - left. done.
  - right. split; [done|by etrans].
Qed.

#[local] Instance item_le_total : Total Importer.item_le.
Proof. intros i1 i2. apply (total Importer.key_le). Qed.

#[local] Instance item_le_trans : Transitive Importer.item_le.
Proof. intros i1 i2 i3. apply (transitivity (R := Importer.key_le)). Qed.


(** *** The median *)

Lemma median_Some data :
  data ≠ [] → ∃ m, Importer.median data = Some m ∧ is_median data m.
Proof.
  intros Hne. unfold Importer.median, is_median.
  pose proof (merge_sort_Permutation Importer.float_le data) as Hperm.
  pose proof (Sorted_merge_sort Importer.float_le data) as Hsorted.
  set (s := merge_sort Importer.float_le data) in *.
  assert (length s = length data) as Hlen by by rewrite Hperm.
  assert (Sorted Qle s) as HsQ.
  { rewrite <- (list_fmap_id s). eapply Sorted_fmap; [|exact Hsorted].
    intros x y H. by apply leb_le, Is_true_true. }
  rewrite Hlen. set (n := length data) in *.
  assert (n ≠ 0)%nat as Hn by (subst n; by destruct data).
  rewrite decide_False by done.
  assert (n `div` 2 < n)%nat as Hhalf by (apply Nat.div_lt; lia).
  destruct (lookup_lt_is_Some_2 s (n `div` 2)%nat) as [b Hb]; [lia|].
  destruct (decide (n `mod` 2 = 1)%nat) as [Hodd|Heven].
  - exists b. split; [done|]. by exists s.
  - destruct (lookup_lt_is_Some_2 s (n `div` 2 - 1)%nat) as [a Ha]; [lia|].
    rewrite Ha, Hb. simpl. eexists. split; [done|].
    exists s. split_and!; [done..|]. by exists a, b.
Qed.

Lemma median_singleton x : Importer.median [x] = Some x.
Proof. reflexivity. Qed.

(** *** The aggregates *)

Lemma aggregate_of_Some k prices a :
  Importer.aggregate_of (k, prices) = Some a ↔
  ∃ m, Importer.median prices = Some m ∧ a = emitted k prices m.
Proof.
  destruct k as [slug month]. unfold Importer.aggregate_of, emitted. simpl.
  destruct (Importer.median prices) as [m|]; simpl.
  - split; [intros [= <-]; by exists m|]. by intros (m' & [= <-] & ->).
  - split; [done|]. by intros (m' & ? & _).
Qed.

Lemma elem_of_sorted_items records k prices :
  (k, prices) ∈ sorted_items records ↔
  prices = group_values k records ∧ prices ≠ [].
Proof.
  unfold sorted_items. rewrite merge_sort_Permutation, elem_of_map_to_list.
  apply group_lookup.
Qed.


Lemma key_le_antisym k1 k2 :
  Importer.key_le k1 k2 → Importer.key_le k2 k1 → k1 = k2.
Proof.
  destruct k1 as [a1 b1], k2 as [a2 b2]. unfold Importer.key_le. simpl.
  intros [[Hne1 H1]|[-> H1]] [[Hne2 H2]|[E H2]]; try done.
  - exfalso. apply Hne1. by apply (anti_symm String.le).
  - f_equal. by apply (anti_symm String.le).
Qed.

(** The result of [sorted] does not depend on the sorting algorithm: every
    arrangement of the items that is ascending by key is [sorted_items]. *)
Lemma sorted_items_unique records l :
  l ≡ₚ map_to_list (Importer.group records) →
  StronglySorted Importer.item_le l →
  l = sorted_items records.
Proof.
  intros Hperm Hsorted.
  apply (StronglySorted_unique_strong Importer.item_le); [|done| |].
  - intros [k1 p1] [k2 p2] H1 H2 Hle1 Hle2.
    assert (k1 = k2) as -> by by apply key_le_antisym.
    rewrite Hperm in H1. unfold sorted_items in H2.
    rewrite merge_sort_Permutation in H2.
    apply elem_of_map_to_list in H1, H2. congruence.
  - apply StronglySorted_merge_sort; apply _.
  - unfold sorted_items. by rewrite merge_sort_Permutation.
Qed.

Lemma omap_aggregate_of items :
  Forall (λ it : Importer.Key * list Q, it.2 ≠ []) items →
  Forall2 (λ a it, ∃ m, Importer.median it.2 = Some m ∧ is_median it.2 m
                        ∧ a = emitted it.1 it.2 m)
    (omap Importer.aggregate_of items) items.
Proof.
  induction 1 as [|[k prices] items Hne _ IH]; [constructor|]. simpl in Hne.
  destruct (median_Some prices Hne) as (m & Hm & Hmed).
  assert (Importer.aggregate_of (k, prices) = Some (emitted k prices m)) as E.
  { apply aggregate_of_Some. by exists m. }
  cbn [omap list_omap]. rewrite E. constructor; [|done]. by exists m.
Qed.





(** The fallback of the date extractor: a non-empty text that no format
    parses is returned unchanged. *)
Lemma parse_date_fallback (datetime : Type) strptime strftime a text :
  (∀ fmt, strptime (PyStr.strip (String a text)) fmt = None) →
  parse_date datetime strptime strftime (Some (String a text))
  = Some (String a text).
Proof.
  intros Hno. unfold parse_date. simpl. by rewrite !Hno.
Qed.

(** C1 fails on the code.  The record below carries, as its date, a text
    that the date extractor returned unparsed; the aggregator puts it in
    the bucket named by the first seven characters of the text and emits
    an aggregate for it. *)
Theorem unparsed_date_is_bucketed :
  parse_date Empty_set strptime0 strftime0 (Some "Unknown date") = Some "Unknown date"
  ∧ Importer.month_key undated_sale = Some ("trinitite", "Unknown")
  ∧ Importer.calculate_monthly_medians [undated_sale]
    = [Importer.Aggregate "trinitite" 5 "gram" "WorthPoint (n=1)" "Unknown-15"]
  ∧ ¬ in_no_bucket undated_sale.
Proof.
  split_and!.
  - by apply parse_date_fallback.
  - reflexivity.
  - vm_compute. reflexivity.
  - intros H. specialize (H [] []). vm_compute in H. discriminate H.
Qed.

(** ** [main] and the ruleset table *)

Section Main.
Variable datetime : Type.
Variable strptime : string → string → option datetime.
Variable strftime : datetime → string → string.

Lemma get_material_key_empty filename : get_material_key [] filename = None.
Proof. reflexivity. Qed.

Lemma has_key_lookup config k :
  has_key config k = true → is_Some (config_lookup config k).
Proof.
  unfold has_key, config_lookup.
  induction config as [|e config IH]; [done|]. simpl.
  destruct (bool_decide (e.1 = k)); [by eexists|]. exact IH.
Qed.

(** The keys [get_material_key] returns are keys of the table. *)
Lemma get_material_key_in_table config filename key :
  get_material_key config filename = Some key → is_Some (config_lookup config key).
Proof.
  unfold get_material_key. set (base := PyStr.lower _).
  destruct (has_key config base) eqn:Hk.
  - intros [= <-]. by apply has_key_lookup.
  - clear Hk. unfold config_lookup.
    induction config as [|e config IH]; [done|]. simpl.
    destruct (PyStr.contains e.1 base || PyStr.contains base e.1).
    + intros [= <-]. simpl. rewrite bool_decide_true by done. by eexists.
    + intros H. destruct (bool_decide (e.1 = key)); [by eexists|]. by apply IH.
Qed.



End Main.


(** * Further properties of the two scripts *)

Import Further.

(** ** [round]: monotone, and the identity on its own results *)

Lemma pow10_pos n : (0 < inject_Z (PyFloat.pow10 n))%Q.
Proof.
  unfold PyFloat.pow10. change 0%Q with (inject_Z 0). rewrite <- Zlt_Qlt.
  apply Z.pow_pos_nonneg; lia.
Qed.

Lemma rhe_cases x :
  let f := Qfloor x in
  ((x - inject_Z f < 1 # 2)%Q ∧ PyFloat.round_half_even x = f)
  ∨ ((x - inject_Z f == 1 # 2)%Q
     ∧ PyFloat.round_half_even x = if Z.even f then f else f + 1)
  ∨ ((1 # 2 < x - inject_Z f)%Q ∧ PyFloat.round_half_even x = f + 1).
Proof.
  intros f. unfold PyFloat.round_half_even. fold f.
  destruct (x - inject_Z f ?= 1 # 2)%Q eqn:E.
  - right. left. split; [by apply Qeq_alt|done].
  - left. split; [by apply Qlt_alt|done].
  - right. right. split; [by apply Qgt_alt in E|done].
Qed.

Lemma rhe_mono x y : (x <= y)%Q → PyFloat.round_half_even x <= PyFloat.round_half_even y.
Proof.
  intros Hxy. pose proof (Qfloor_resp_le x y Hxy) as Hfg.
  pose proof (Qfloor_le x) as Hfx. pose proof (Qlt_floor x) as Hxf.
  pose proof (Qfloor_le y) as Hfy. pose proof (Qlt_floor y) as Hyf.
  destruct (rhe_cases x) as [[Hx ->]|[[Hx ->]|[Hx ->]]];
  destruct (rhe_cases y) as [[Hy ->]|[[Hy ->]|[Hy ->]]];
  (destruct (decide (Qfloor x = Qfloor y)) as [E|NE];
   [rewrite E in *|]);
  try destruct (Z.even (Qfloor x)); try destruct (Z.even (Qfloor y));
  try lia; exfalso; lra.
Qed.

Lemma rhe_comp x y : (x == y)%Q → PyFloat.round_half_even x = PyFloat.round_half_even y.
Proof.
  intros E. apply Z.le_antisymm; apply rhe_mono; rewrite E; apply Qle_refl.
Qed.

Lemma rhe_Z z : PyFloat.round_half_even (inject_Z z) = z.
Proof.
  unfold PyFloat.round_half_even. rewrite Qfloor_Z.
  assert ((inject_Z z - inject_Z z ?= 1 # 2)%Q = Lt) as ->; [|done].
  apply Qlt_alt.
  assert (inject_Z z - inject_Z z == 0)%Q as -> by ring. reflexivity.
Qed.

(** [round(x, n)] is monotone, fixes the multiples of [10^-n], and depends
    on the value of [x] only. *)
Lemma round_mono x y n : (x <= y)%Q → (PyFloat.round x n <= PyFloat.round y n)%Q.
Proof.
  intros Hxy. unfold PyFloat.round. rewrite !Qred_correct.
  pose proof (pow10_pos n) as Hp.
  apply Qmult_le_r; [by apply Qinv_lt_0_compat|].
  rewrite <- Zle_Qle. apply rhe_mono. by apply Qmult_le_r.
Qed.

Lemma round_comp x y n : (x == y)%Q → PyFloat.round x n = PyFloat.round y n.
Proof.
  intros E. unfold PyFloat.round. f_equal. f_equal. f_equal.
  apply rhe_comp. by rewrite E.
Qed.

Lemma round_grid x n k :
  (x * inject_Z (PyFloat.pow10 n) == inject_Z k)%Q → (PyFloat.round x n == x)%Q.
Proof.
  intros E. unfold PyFloat.round. rewrite Qred_correct.
  rewrite (rhe_comp _ _ E), rhe_Z. rewrite <- E.
  pose proof (pow10_pos n) as Hp. field. lra.
Qed.

Lemma round_on_grid x n :
  (PyFloat.round x n * inject_Z (PyFloat.pow10 n)
   == inject_Z (PyFloat.round_half_even (x * inject_Z (PyFloat.pow10 n))))%Q.
Proof.
  unfold PyFloat.round. rewrite Qred_correct.
  pose proof (pow10_pos n) as Hp. field. lra.
Qed.

Lemma round_idem x n : PyFloat.round (PyFloat.round x n) n = PyFloat.round x n.
Proof.
  pose proof (round_on_grid x n) as E.
  set (r := PyFloat.round x n) in *. unfold PyFloat.round.
  rewrite (rhe_comp _ _ E), rhe_Z. reflexivity.
Qed.

Lemma round_canonical x n : Qred (PyFloat.round x n) = PyFloat.round x n.
Proof. unfold PyFloat.round. apply Qred_complete, Qred_correct. Qed.

(** ** [extract_weight]: the range of its results *)

Lemma weight_in_bounds_spec w :
  weight_in_bounds w = true ↔ (1 # 100 < w ∧ w < 100000)%Q.
Proof.
  unfold weight_in_bounds. rewrite andb_true_iff, !ltb_lt. done.
Qed.

Lemma extract_weight_rounded title w :
  extract_weight title = Some w →
  ∃ v, (1 # 100 < v ∧ v < 100000)%Q ∧ w = PyFloat.round v 3.
Proof.
  intros Hw. apply extract_weight_loop_Some in Hw; [|done].
  destruct Hw as (_ & _ & _ & _ & v & _ & _ & _ & Hv & ->).
  apply weight_in_bounds_spec in Hv. by exists v.
Qed.

Lemma extract_weight_bounds title w :
  extract_weight title = Some w → (1 # 100 <= w ∧ w <= 100000)%Q.
Proof.
  intros (v & [Hlo Hhi] & ->)%extract_weight_rounded. split.
  - eapply Qle_trans; [|apply (round_mono (1 # 100) v 3); lra].
    by apply leb_le.
  - eapply Qle_trans; [apply (round_mono v 100000 3); lra|].
    by apply leb_le.
Qed.

Lemma extract_weight_truthy title w :
  extract_weight title = Some w → PyFloat.truthy w = true.
Proof.
  intros [Hlo _]%extract_weight_bounds. apply positive_truthy, ltb_lt. lra.
Qed.

(** X1.  A weight read from a title is never outside [0.01, 100000]: the
    bounds are tested before the rounding, so both ends can be reached.  It
    is a whole number of milligrams, it is truthy, and rounding it again to
    three decimals changes nothing. *)
Theorem extract_weight_range title w :
  extract_weight title = Some w →
  (1 # 100 <= w ∧ w <= 100000)%Q
  ∧ (∃ k : Z, (w * 1000 == inject_Z k)%Q)
  ∧ PyFloat.truthy w = true
  ∧ PyFloat.round w 3 = w.
Proof.
  intros Hw. split_and!.
  - by apply (extract_weight_bounds title).
  - by apply (extract_weight_bounds title).
  - apply extract_weight_rounded in Hw as (v & _ & ->).
    eexists. apply (round_on_grid v 3).
  - by apply (extract_weight_truthy title).
  - apply extract_weight_rounded in Hw as (v & _ & ->). apply round_idem.
Qed.

Lemma extract_weight_range_witness :
  (1 # 100 <= 1 # 100 ∧ 1 # 100 <= 100000)%Q
  ∧ (∃ k : Z, ((1 # 100) * 1000 == inject_Z k)%Q)
  ∧ PyFloat.truthy (1 # 100) = true
  ∧ PyFloat.round (1 # 100) 3 = (1 # 100)%Q.
Proof.
  apply (extract_weight_range "0.0104g"). vm_compute. reflexivity.
Defined.

(** ** [parse_price] *)

Lemma parse_price_Some o p :
  parse_price o = Some p →
  ∃ s v, o = Some s ∧ s ≠ "" ∧ PyFloat.of_string (clean_price s) = Some v
         ∧ (0 < v ∧ v < 1000000)%Q ∧ p = PyFloat.round v 2.
Proof.
  unfold parse_price. destruct o as [[|a s]|]; try done. simpl PyStr.truthy.
  cbn [negb default]. destruct (PyFloat.of_string _) as [v|] eqn:Hv; [|done].
  destruct (PyFloat.ltb 0 v) eqn:H0; [|done].
  destruct (PyFloat.ltb v 1000000) eqn:H1; [|done]. simpl.
  intros [= <-]. exists (String a s), v. split_and!; try done.
  - by apply ltb_lt.
  - by apply ltb_lt.
Qed.

Lemma parse_price_bounds o p :
  parse_price o = Some p →
  (0 <= p ∧ p <= 1000000)%Q ∧ ∃ k : Z, (p * 100 == inject_Z k)%Q.
Proof.
  intros (s & v & _ & _ & _ & [Hlo Hhi] & ->)%parse_price_Some.
  split_and!.
  - eapply Qle_trans; [|apply (round_mono 0 v 2); lra].
    by apply leb_le.
  - eapply Qle_trans; [apply (round_mono v 1000000 2); lra|].
    by apply leb_le.
  - eexists. apply (round_on_grid v 2).
Qed.

(** X2.  A parsed price lies in [0, 1000000] and is a whole number of
    cents.  The bounds are tested on the value before rounding, so a text
    such as 0.004 parses to 0 and 999999.999 parses to 1000000. *)
Theorem parse_price_range o p :
  parse_price o = Some p →
  (0 <= p ∧ p <= 1000000)%Q
  ∧ (∃ k : Z, (p * 100 == inject_Z k)%Q)
  ∧ PyFloat.round p 2 = p.
Proof.
  intros Hp. destruct (parse_price_bounds o p Hp) as ([Hlo Hhi] & Hk).
  split_and!; [done..|].
  apply parse_price_Some in Hp as (s & v & _ & _ & _ & _ & ->).
  apply round_idem.
Qed.

Lemma parse_price_range_witness :
  parse_price (Some "0.004") = Some 0%Q
  ∧ parse_price (Some "999999.999") = Some 1000000%Q
  ∧ (0 <= 1000000 ∧ 1000000 <= 1000000)%Q.
Proof.
  split; [vm_compute; reflexivity|]. split; [vm_compute; reflexivity|].
  apply (parse_price_range (Some "999999.999") 1000000%Q). vm_compute. reflexivity.
Defined.

Lemma clean_price_app s t :
  clean_price (s +:+ t) = clean_price s +:+ clean_price t.
Proof.
  induction s as [|a s IH]; [done|]. rewrite str_app_cons. simpl.
  destruct (_ || _); [done|]. by rewrite str_app_cons, IH.
Qed.

Lemma clean_price_removable c s :
  removable c = true → clean_price (String c s) = clean_price s.
Proof. unfold removable. simpl. by intros ->. Qed.

Lemma clean_price_idem s : clean_price (clean_price s) = clean_price s.
Proof.
  induction s as [|a s IH]; [done|]. simpl.
  destruct (_ || _) eqn:E; [done|]. simpl. by rewrite E, IH.
Qed.

Lemma parse_price_nonempty s :
  s ≠ "" →
  parse_price (Some s) =
    match PyFloat.of_string (clean_price s) with
    | Some price =>
        if PyFloat.ltb 0 price && PyFloat.ltb price 1000000
        then Some (PyFloat.round price 2) else None
    | None => None
    end.
Proof. by destruct s. Qed.

(** [parse_price] sees a non-empty text only through [clean_price]. *)
Lemma parse_price_clean s s' :
  s ≠ "" → s' ≠ "" → clean_price s = clean_price s' →
  parse_price (Some s) = parse_price (Some s').
Proof. intros Hs Hs' E. by rewrite !parse_price_nonempty, E. Qed.

(** X3.  A dollar sign, a comma or a whitespace character anywhere in a
    price text changes nothing, as long as the text stays non-empty without
    it. *)
Theorem parse_price_ignores_separators s1 c s2 :
  removable c = true → s1 +:+ s2 ≠ "" →
  parse_price (Some (s1 +:+ String c s2)) = parse_price (Some (s1 +:+ s2)).
Proof.
  intros Hc Hne. apply parse_price_clean; [by destruct s1|done|].
  by rewrite !clean_price_app, clean_price_removable.
Qed.

Lemma parse_price_ignores_separators_witness :
  parse_price (Some "1,250.50") = parse_price (Some "1250.50")
  ∧ parse_price (Some "1250.50") = Some (2501 # 2)%Q.
Proof.
  split; [|vm_compute; reflexivity].
  apply (parse_price_ignores_separators "1" ","%char "250.50"); [reflexivity|done].
Defined.

(** ** The records of step 3 *)


Lemma price_per_gram_of_Some price weight g :
  price_per_gram_of price weight = Some g →
  ∃ w, weight = Some w ∧ (0 < w)%Q
       ∧ g = PyFloat.round (PyFloat.div price w) 2.
Proof.
  destruct weight as [w|]; [|done]. simpl.
  destruct (PyFloat.truthy w); [|done]. simpl.
  destruct (PyFloat.ltb 0 w) eqn:E; [|done]. intros [= <-].
  exists w. split_and!; [done| |done]. by apply ltb_lt.
Qed.


Section RecordRanges.
Variable datetime : Type.
Variable strptime : string → string → option datetime.
Variable strftime : datetime → string → string.


End RecordRanges.


(** ** [parse_date] *)

Section Strip.
Import PyStr.

Lemma lstrip_head_ok s : head_ok (lstrip s).
Proof.
  induction s as [|a s IH]; [done|]. simpl.
  destruct (is_space a) eqn:E; [done|]. simpl. done.
Qed.

Lemma lstrip_id s : head_ok s → lstrip s = s.
Proof. destruct s as [|a s]; [done|]. simpl. by intros ->. Qed.

Lemma rstrip_head_ok s : head_ok s → head_ok (rstrip s).
Proof.
  destruct s as [|a s]; [done|]. simpl. intros Ha.
  destruct (rstrip s); simpl; [by rewrite Ha|done].
Qed.

Lemma rstrip_idem s : rstrip (rstrip s) = rstrip s.
Proof.
  induction s as [|a s IH]; [done|]. simpl.
  destruct (rstrip s) as [|b r] eqn:E.
  - destruct (is_space a) eqn:Ha; [done|]. simpl. by rewrite Ha.
  - simpl in *. by rewrite IH.
Qed.

Lemma strip_idem s : strip (strip s) = strip s.
Proof.
  unfold strip.
  rewrite (lstrip_id (rstrip (lstrip s))).
  - apply rstrip_idem.
  - apply rstrip_head_ok, lstrip_head_ok.
Qed.

End Strip.

Section Dates.
Variable datetime : Type.
Variable strptime : string → string → option datetime.
Variable strftime : datetime → string → string.

Abbreviation parse_date' := (parse_date datetime strptime strftime).
Abbreviation parse_date_loop' := (parse_date_loop datetime strptime strftime).

Lemma parse_date_loop_strip fmts text :
  parse_date_loop' fmts (PyStr.strip text) = parse_date_loop' fmts text.
Proof.
  induction fmts as [|fmt fmts IH]; [done|]. simpl.
  by rewrite strip_idem, IH.
Qed.

Lemma parse_date_nonempty text :
  text ≠ "" →
  parse_date' (Some text) =
    match parse_date_loop' formats text with
    | Some d => Some d
    | None => Some text
    end.
Proof. by destruct text. Qed.

(** X4.  The date extractor returns [None] exactly on a missing or empty
    text.  Surrounding whitespace does not change what is parsed.  A text
    that no format parses comes back unchanged, whitespace included, and
    stays so when the extractor is applied again. *)
Theorem parse_date_keeps_every_text date_str :
  (parse_date' date_str = None ↔ PyStr.truthy date_str = false)
  ∧ (∀ text d,
       text ≠ "" → PyStr.strip text ≠ "" →
       parse_date_loop' formats text = Some d →
       parse_date' (Some text) = Some d
       ∧ parse_date' (Some (PyStr.strip text)) = Some d)
  ∧ (∀ text,
       text ≠ "" → parse_date_loop' formats text = None →
       parse_date' (Some text) = Some text
       ∧ parse_date' (parse_date' (Some text)) = Some text).
Proof.
  split_and!.
  - destruct date_str as [[|a s]|]; try done.
    split; [|done]. rewrite parse_date_nonempty by done.
    by destruct (parse_date_loop' formats (String a s)).
  - intros text d Hne Hne' Hd.
    rewrite !parse_date_nonempty, parse_date_loop_strip, Hd by done. done.
  - intros text Hne Hd.
    rewrite !parse_date_nonempty, Hd by done.
    by rewrite !parse_date_nonempty, Hd by done.
Qed.

End Dates.

Lemma parse_date_keeps_every_text_witness :
  parse_date string iso_strptime iso_strftime (Some " 2024-03-09 ") = Some "2024-03-09"
  ∧ parse_date string iso_strptime iso_strftime (Some "2024-03-09") = Some "2024-03-09"
  ∧ parse_date string iso_strptime iso_strftime (Some " March 9 ") = Some " March 9 ".
Proof.
  destruct (parse_date_keeps_every_text string iso_strptime iso_strftime None)
    as (_ & H1 & H2).
  destruct (H1 " 2024-03-09 " "2024-03-09") as [E1 E2]; [done|done|reflexivity|].
  destruct (H2 " March 9 ") as [E3 _]; [done|reflexivity|].
  split_and!; [exact E1|exact E2|exact E3].
Defined.

(** ** [get_material_key] *)

Lemma startswith_refl s : PyStr.startswith s s = true.
Proof. induction s as [|a s IH]; [done|]. simpl. by rewrite decide_True. Qed.

Lemma contains_refl s : PyStr.contains s s = true.
Proof. destruct s; simpl; [done|]. by rewrite decide_True, startswith_refl. Qed.

Lemma find_None_related (config : ruleset_table) base :
  List.find (related base) config = None ↔
  Forall (λ e, related base e = false) config.
Proof.
  induction config as [|e config IH]; simpl.
  - split; [constructor|done].
  - rewrite Forall_cons. destruct (related base e).
    + split; [done|]. by intros [? _].
    + rewrite IH. split; [by split|by intros [_ ?]].
Qed.

Lemma find_Some_related (config : ruleset_table) base e :
  List.find (related base) config = Some e → e ∈ config ∧ related base e = true.
Proof.
  intros H. apply find_some in H as [H1 H2]. split; [|done].
  by apply list_elem_of_In.
Qed.

Lemma has_key_true config k :
  has_key config k = true ↔ ∃ e, e ∈ config ∧ e.1 = k.
Proof.
  unfold has_key. rewrite existsb_exists. split.
  - intros (e & Hin & He). exists e. split; [by apply list_elem_of_In|].
    by apply bool_decide_eq_true in He.
  - intros (e & Hin & He). exists e. split; [by apply list_elem_of_In|].
    by apply bool_decide_eq_true.
Qed.

(** X5.  The key of a file is [None] exactly when no key of the table
    contains the base name or is contained in it; a base name that is a key
    is its own key; and every key returned is a key of the table related to
    the base name in that way, so the lookup that follows cannot fail. *)
Theorem get_material_key_resolution config filename :
  (get_material_key config filename = None ↔
   Forall (λ e, related (base_name filename) e = false) config)
  ∧ (has_key config (base_name filename) = true →
     get_material_key config filename = Some (base_name filename))
  ∧ (∀ key, get_material_key config filename = Some key →
       (∃ ruleset, (key, ruleset) ∈ config
                   ∧ related (base_name filename) (key, ruleset) = true)
       ∧ is_Some (config_lookup config key)).
Proof.
  unfold get_material_key. fold (base_name filename).
  set (base := base_name filename).
  change (λ e : string * ruleset, PyStr.contains e.1 base || PyStr.contains base e.1)
    with (related base).
  split_and!.
  - destruct (has_key config base) eqn:Hk.
    + split; [done|]. intros Hall. exfalso.
      apply has_key_true in Hk as (e & Hin & He).
      pose proof (proj1 (Forall_forall _ _) Hall e Hin) as Hr.
      unfold related in Hr. rewrite He, contains_refl in Hr. done.
    + rewrite <- find_None_related.
      by destruct (List.find (related base) config).
  - by intros ->.
  - intros key Hkey. split.
    + destruct (has_key config base) eqn:Hk.
      * injection Hkey as <-. apply has_key_true in Hk as ([k r] & Hin & He).
        simpl in He. subst k. exists r. split; [done|].
        unfold related. simpl. by rewrite contains_refl.
      * destruct (List.find (related base) config) as [[k r]|] eqn:Hf; [|done].
        injection Hkey as <-. apply find_Some_related in Hf as [Hin Hr].
        by exists r.
    + apply (get_material_key_in_table config filename).
      unfold get_material_key. fold (base_name filename). fold base.
      done.
Qed.

Lemma get_material_key_resolution_witness :
  get_material_key MATERIAL_CONFIG "/data/Trinitite.csv" = Some "trinitite"
  ∧ is_Some (config_lookup MATERIAL_CONFIG "gibeon").
Proof.
  destruct (get_material_key_resolution MATERIAL_CONFIG "/data/Trinitite.csv")
    as (_ & H & _).
  destruct (get_material_key_resolution MATERIAL_CONFIG "worthpoint-gibeon-2024.csv")
    as (_ & _ & H').
  split.
  - apply H. vm_compute. reflexivity.
  - apply (H' "gibeon"). vm_compute. reflexivity.
Defined.

(** ** Step 2: what is kept *)

Lemma title_of_insert_slug slug (row : Row) :
  title_of (<["material_slug" := slug]> row) = title_of row.
Proof. unfold title_of, get_or. by rewrite lookup_insert_ne. Qed.

Lemma key_of_insert_slug slug (row : Row) :
  key_of (<["material_slug" := slug]> row) = key_of row.
Proof. unfold key_of. by rewrite title_of_insert_slug. Qed.

Lemma take_length n s : (String.length (PyStr.take n s) ≤ n)%nat.
Proof.
  revert s. induction n as [|n IH]; intros [|a s]; simpl; try lia.
  specialize (IH s). lia.
Qed.

Lemma kept_rows_dd_append slug row d :
  kept_rows (dd_append slug row d) ≡ₚ row :: kept_rows d.
Proof.
  unfold kept_rows. induction d as [|[k rows] d IH]; [done|].
  cbn [dd_append]. destruct (decide (k = slug)) as [->|Hne].
  - rewrite !bind_cons. cbn [snd]. rewrite <- app_assoc.
    change ([row] ++ d ≫= snd) with (row :: d ≫= snd).
    by rewrite <- Permutation_middle.
  - rewrite !bind_cons, IH. cbn [snd]. by rewrite <- Permutation_middle.
Qed.

Lemma dd_append_fst slug row d :
  (dd_append slug row d).*1
  = if decide (slug ∈ d.*1) then d.*1 else d.*1 ++ [slug].
Proof.
  induction d as [|[k rows] d IH].
  - destruct (decide (slug ∈ [].*1)) as [Hin|_]; [|done].
    by apply elem_of_nil in Hin.
  - cbn [dd_append]. destruct (decide (k = slug)) as [->|Hne].
    + destruct (decide (slug ∈ ((slug, rows) :: d).*1)) as [_|Hnin]; [done|].
      destruct Hnin. apply list_elem_of_here.
    + rewrite !fmap_cons, IH. cbn [fst].
      destruct (decide (slug ∈ d.*1)) as [Hin|Hnin];
        destruct (decide (slug ∈ k :: d.*1)) as [Hin'|Hnin']; try done.
      * destruct Hnin'. by apply list_elem_of_further.
      * apply elem_of_cons in Hin' as [?|?]; congruence.
Qed.

Lemma dd_append_NoDup slug row d : NoDup d.*1 → NoDup (dd_append slug row d).*1.
Proof.
  intros Hnd. rewrite dd_append_fst. destruct (decide (slug ∈ d.*1)); [done|].
  apply NoDup_app. split_and!; [done| |apply NoDup_singleton].
  intros x Hx ->%list_elem_of_singleton. done.
Qed.

Lemma dd_append_Forall (P : string → Row → Prop) slug row d :
  Forall (λ e : string * list Row, e.2 ≠ [] ∧ Forall (P e.1) e.2) d →
  P slug row →
  Forall (λ e : string * list Row, e.2 ≠ [] ∧ Forall (P e.1) e.2)
    (dd_append slug row d).
Proof.
  intros Hd Hrow. induction d as [|[k rows] d IH]; simpl.
  - repeat constructor; simpl; [done|done].
  - apply Forall_cons in Hd as [[Hne Hk] Hd]. simpl in *.
    destruct (decide (k = slug)) as [->|Hneq].
    + constructor; [|done]. simpl. split; [by destruct rows|].
      apply Forall_app. split; [done|]. by constructor.
    + constructor; [done|]. by apply IH.
Qed.

Section WellFormed.
Variables (config : ruleset_table) (pool : list Row).

Lemma filter_row_well_formed key slug f st row :
  (key, (slug, f)) ∈ config → row ∈ pool →
  well_formed config pool st →
  well_formed config pool (filter_row slug f st row).
Proof.
  intros Hcfg Hrow (Hnd & Hseen & Hslugs & Hall).
  destruct (filter_row_cases f st row) as [H|[[H1 H2]|[H1 H2]]].
  - by rewrite filter_row_rejected.
  - by rewrite filter_row_duplicate.
  - rewrite filter_row_admitted by done. unfold well_formed. simpl.
    split_and!.
    + rewrite kept_rows_dd_append, fmap_cons, key_of_insert_slug.
      apply NoDup_cons. split; [|done]. by rewrite <- Hseen.
    + intros k. rewrite kept_rows_dd_append, fmap_cons, key_of_insert_slug.
      rewrite elem_of_union, elem_of_singleton, elem_of_cons, Hseen. done.
    + by apply dd_append_NoDup.
    + apply dd_append_Forall; [done|]. split.
      * by exists row.
      * exists key, f. split; [done|]. by rewrite title_of_insert_slug.
Qed.

Lemma filter_rows_well_formed key slug f rows st :
  (key, (slug, f)) ∈ config → Forall (λ row, row ∈ pool) rows →
  well_formed config pool st →
  well_formed config pool (filter_rows slug f st rows).
Proof.
  intros Hcfg Hrows. revert st.
  induction Hrows as [|row rows Hrow _ IH]; intros st Hst; [done|].
  unfold filter_rows in *. simpl. apply IH.
  by apply (filter_row_well_formed key).
Qed.

Lemma config_lookup_elem key r :
  config_lookup config key = Some r → (key, r) ∈ config.
Proof.
  unfold config_lookup.
  destruct (List.find _ config) as [[k r']|] eqn:Hf; [|done].
  intros [= <-]. apply find_some in Hf as [Hin Hk]. simpl in Hk.
  apply bool_decide_eq_true in Hk as <-. by apply list_elem_of_In.
Qed.

Lemma filter_file_well_formed st file :
  Forall (λ row, row ∈ pool) file.2 →
  well_formed config pool (run st) →
  well_formed config pool (run (filter_file config st file)).
Proof.
  intros Hrows Hst.
  destruct (filter_file_cases config st file)
    as [[-> _]|(key & slug & f & Hk & Ht & Hl & ->)]; [done|].
  simpl. apply (filter_rows_well_formed key); [by apply config_lookup_elem|done|].
  exact Hst.
Qed.

End WellFormed.

Lemma well_formed_pool config pool pool' st :
  pool ⊆ pool' → well_formed config pool st → well_formed config pool' st.
Proof.
  intros Hsub (H1 & H2 & H3 & H4). split_and!; [done..|].
  eapply Forall_impl; [exact H4|]. intros [slug rows] [Hne Hrows].
  split; [done|]. eapply Forall_impl; [exact Hrows|].
  intros row [(row0 & Hin & ->) Hf]. split; [|done]. exists row0. auto.
Qed.

Lemma filter_files_well_formed config raw_data st pool :
  well_formed config pool (run st) →
  well_formed config (pool ++ raw_data ≫= snd) (run (filter_files config st raw_data)).
Proof.
  revert st pool. induction raw_data as [|file raw_data IH]; intros st pool Hst.
  - simpl. by rewrite app_nil_r.
  - unfold filter_files in *. rewrite bind_cons, app_assoc.
    cbn [foldl]. apply IH. apply filter_file_well_formed.
    + apply Forall_forall. intros row Hrow. apply elem_of_app. by right.
    + eapply well_formed_pool; [|exact Hst]. intros x Hx. apply elem_of_app. by left.
Qed.

Lemma well_formed_init config : well_formed config [] (run step2_init).
Proof.
  split_and!; simpl.
  - constructor.
  - intros k. split; [by intros ?%elem_of_empty|by intros ?%elem_of_nil].
  - constructor.
  - constructor.
Qed.

(** X6.  After step 2, over all files and materials together, no two kept
    rows share a de-duplication key; the seen keys are exactly the keys of
    the kept rows, and none is longer than 60 characters. *)
Theorem kept_rows_have_distinct_keys config raw_data :
  let st := run (filter_files config step2_init raw_data) in
  NoDup (key_of <$> kept_rows (filtered_data st))
  ∧ (∀ k, k ∈ seen_titles st ↔
          ∃ row, row ∈ kept_rows (filtered_data st) ∧ key_of row = k)
  ∧ (∀ k, k ∈ seen_titles st → (String.length k ≤ 60)%nat).
Proof.
  intros st.
  destruct (filter_files_well_formed config raw_data step2_init []
              (well_formed_init config)) as (H1 & H2 & _).
  fold st in H1, H2. split_and!; [done| |].
  - intros k. rewrite H2, list_elem_of_fmap. split.
    + intros (row & -> & Hrow). by exists row.
    + intros (row & Hrow & <-). by exists row.
  - intros k (row & -> & _)%H2%list_elem_of_fmap. apply take_length.
Qed.

(** X7.  [filtered_data] has one entry per material identifier and no
    empty entry; every identifier is one of the table; every stored row is
    a row of an input file with its [material_slug] cell set to the
    identifier it is stored under, and a ruleset of the table with that
    identifier accepts its title. *)
Theorem filtered_data_by_material config raw_data :
  let d := filtered_data (run (filter_files config step2_init raw_data)) in
  NoDup d.*1
  ∧ ∀ slug rows, (slug, rows) ∈ d →
      rows ≠ [] ∧ slug ∈ slugs config
      ∧ ∀ row, row ∈ rows →
          row !! "material_slug" = Some slug
          ∧ (∃ file row0, file ∈ raw_data ∧ row0 ∈ file.2
                          ∧ row = <["material_slug" := slug]> row0)
          ∧ ∃ key filter_fn, (key, (slug, filter_fn)) ∈ config
                             ∧ filter_fn (title_of row) = true.
Proof.
  intros d.
  destruct (filter_files_well_formed config raw_data step2_init []
              (well_formed_init config)) as (_ & _ & H3 & H4).
  fold d in H3, H4. split; [done|]. intros slug rows Hin.
  pose proof (proj1 (Forall_forall _ _) H4 _ Hin) as [Hne Hrows]. simpl in *.
  split; [done|].
  assert (∀ row, row ∈ rows → stored_ok config ([] ++ raw_data ≫= snd) slug row)
    as Hok by (by apply Forall_forall).
  split.
  - destruct rows as [|row rows]; [done|].
    destruct (Hok row) as [_ (key & f & Hcfg & _)]; [apply list_elem_of_here|].
    unfold slugs. apply list_elem_of_fmap. by exists (key, (slug, f)).
  - intros row Hrow. destruct (Hok row Hrow) as [(row0 & Hpool & ->) Hf].
    split_and!; [by rewrite lookup_insert_eq| |done].
    simpl in Hpool. apply list_elem_of_bind in Hpool as (file & Hrow0 & Hfile).
    by exists file, row0.
Qed.

(** ** Step 2: the counters *)

Lemma filter_row_counters slug f st row :
  (kept (filter_row slug f st row) + dropped (filter_row slug f st row)
   = S (kept st + dropped st))%nat
  ∧ (length (kept_rows (filtered_data (filter_row slug f st row))) + kept st
     = length (kept_rows (filtered_data st)) + kept (filter_row slug f st row))%nat.
Proof.
  destruct (filter_row_cases f st row) as [H|[[H1 H2]|[H1 H2]]].
  - rewrite filter_row_rejected by done. simpl. lia.
  - rewrite filter_row_duplicate by done. simpl. lia.
  - rewrite filter_row_admitted by done. simpl.
    rewrite kept_rows_dd_append. simpl. lia.
Qed.

Lemma filter_rows_counters slug f rows st :
  (kept (filter_rows slug f st rows) + dropped (filter_rows slug f st rows)
   = kept st + dropped st + length rows)%nat
  ∧ (length (kept_rows (filtered_data (filter_rows slug f st rows))) + kept st
     = length (kept_rows (filtered_data st)) + kept (filter_rows slug f st rows))%nat.
Proof.
  revert st. induction rows as [|row rows IH]; intros st.
  - simpl. lia.
  - unfold filter_rows in *. cbn [fold_left length].
    destruct (IH (filter_row slug f st row)) as [E1 E2].
    destruct (filter_row_counters slug f st row) as [F1 F2]. lia.
Qed.

Lemma sum_list_snoc l n : sum_list (l ++ [n]) = (sum_list l + n)%nat.
Proof. induction l as [|m l IH]; simpl; lia. Qed.

(** The two ways through the body of the loop over the files. *)
Lemma filter_file_step config st file :
  (PyStr.truthy (get_material_key config file.1) = false
   ∧ filter_file config st file
     = Step2 (run st) (filter_stats st) (warnings st ++ [file.1]))
  ∨ (PyStr.truthy (get_material_key config file.1) = true
     ∧ ∃ slug f,
         filter_file config st file =
           let r1 := filter_rows slug f
                       (FilterState (filtered_data (run st)) (seen_titles (run st))
                          0 0 (trace (run st))) file.2 in
           Step2 r1
             (filter_stats st ++ [(file.1, (length file.2, kept r1, dropped r1))])
             (warnings st)).
Proof.
  destruct file as [filename rows]. cbn [fst snd].
  destruct (get_material_key config filename) as [key|] eqn:Hk.
  - destruct (PyStr.truthy (Some key)) eqn:Ht.
    + destruct (get_material_key_in_table _ _ _ Hk) as [[slug f] Hl].
      right. split; [done|]. exists slug, f.
      by apply (filter_file_resolved config st filename rows key).
    + left. split; [done|]. unfold filter_file. by rewrite Hk, Ht.
  - left. split; [done|]. unfold filter_file. by rewrite Hk.
Qed.

Lemma accounted_step config files st file :
  accounted config files st →
  accounted config (files ++ [file]) (filter_file config st file).
Proof.
  intros (H1 & H2 & H3 & H4).
  assert (Forall (λ e : string * (nat * nat * nat),
            (kept_of e + dropped_of e = before_of e)%nat
            ∧ PyStr.truthy (get_material_key config e.1) = true
            ∧ ∃ rows, (e.1, rows) ∈ files ++ [file] ∧ before_of e = length rows)
            (filter_stats st)) as H1'.
  { eapply Forall_impl; [exact H1|]. intros e (? & ? & rows & ? & ?).
    split_and!; [done..|]. exists rows. split; [|done]. apply elem_of_app. by left. }
  destruct (filter_file_step config st file) as [[Hk ->]|[Hk (slug & f & ->)]].
  - unfold accounted. cbn [run filter_stats warnings]. split_and!; [done|done| |].
    + apply Forall_app. split; [done|]. by repeat constructor.
    + rewrite fmap_app, app_assoc, H4. done.
  - unfold accounted. cbn zeta. cbn [run filter_stats warnings].
    set (r1 := filter_rows _ _ _ _).
    destruct (filter_rows_counters slug f file.2
                (FilterState (filtered_data (run st)) (seen_titles (run st))
                   0 0 (trace (run st)))) as [E1 E2].
    fold r1 in E1, E2. cbn [kept dropped filtered_data] in E1, E2.
    split_and!; [| |done|].
    + apply Forall_app. split; [done|]. repeat constructor.
      * unfold kept_of, dropped_of, before_of. simpl. lia.
      * done.
      * exists file.2. split; [|done]. apply elem_of_app. right.
        destruct file. apply list_elem_of_here.
    + rewrite fmap_app. cbn [fmap list_fmap]. rewrite sum_list_snoc, H2.
      unfold kept_of. simpl. lia.
    + rewrite !fmap_app. cbn [fmap list_fmap fst].
      rewrite <- H4. rewrite <- !app_assoc. apply Permutation_app_head.
      apply Permutation_app_comm.
Qed.

Lemma accounted_files config raw_data files st :
  accounted config files st →
  accounted config (files ++ raw_data) (filter_files config st raw_data).
Proof.
  revert files st. induction raw_data as [|file raw_data IH]; intros files st Hst.
  - by rewrite app_nil_r.
  - unfold filter_files in *. cbn [fold_left].
    replace (files ++ file :: raw_data) with ((files ++ [file]) ++ raw_data)
      by by rewrite <- app_assoc.
    apply IH. by apply accounted_step.
Qed.

Lemma accounted_init config : accounted config [] step2_init.
Proof. split_and!; simpl; by constructor. Qed.

(** X8.  In every statistics entry kept plus dropped is the number of rows
    of the file; the kept counters add up to the number of rows in
    [filtered_data]; a file is warned about exactly when it has no key; and
    every file is either counted or warned about, once. *)
Theorem filter_stats_add_up config raw_data :
  let st := filter_files config step2_init raw_data in
  Forall (λ e, (kept_of e + dropped_of e = before_of e)%nat
               ∧ PyStr.truthy (get_material_key config e.1) = true
               ∧ ∃ rows, (e.1, rows) ∈ raw_data ∧ before_of e = length rows)
    (filter_stats st)
  ∧ sum_list (kept_of <$> filter_stats st)
    = length (kept_rows (filtered_data (run st)))
  ∧ Forall (λ f, PyStr.truthy (get_material_key config f) = false) (warnings st)
  ∧ (filter_stats st).*1 ++ warnings st ≡ₚ raw_data.*1.
Proof. apply (accounted_files config raw_data [] step2_init), accounted_init. Qed.

(** ** Steps 3 and 4: the records *)

Section MergedRecords.
Variable datetime : Type.
Variable strptime : string → string → option datetime.
Variable strftime : datetime → string → string.

Local Abbreviation normalize_row' := (normalize_row datetime strptime strftime).
Local Abbreviation normalize' := (normalize datetime strptime strftime).
Local Abbreviation main_with' := (main_with datetime strptime strftime).





End MergedRecords.

(** ** The aggregator: bounds, counts and the order of the rows *)

Section Aggregates.
Import Importer.

(** *** [float] returns reduced fractions *)




(** *** The median lies between the least and the greatest price *)


(** *** The median does not depend on the order of the prices *)

#[local] Instance float_le_trans : Transitive float_le.
Proof.
  intros x y z. unfold float_le.
  intros H1%Is_true_true%leb_le H2%Is_true_true%leb_le.
  apply Is_true_true, leb_le. by apply (Qle_trans _ y).
Qed.











End Aggregates.

Section AggregateBounds.
Import Importer.








(** *** Every record with a key is counted once *)

Lemma sum_list_Permutation l1 l2 : l1 ≡ₚ l2 → sum_list l1 = sum_list l2.
Proof. induction 1; simpl; lia. Qed.

Lemma held_insert_fresh (g : gmap Key (list Q)) k l :
  g !! k = None → prices_held (<[k := l]> g) = (prices_held g + length l)%nat.
Proof.
  intros Hk. unfold prices_held.
  rewrite (sum_list_Permutation _ _
             (fmap_Permutation _ _ _ (map_to_list_insert g k l Hk))).
  rewrite fmap_cons. cbn [sum_list sum_list_with snd]. unfold id. lia.
Qed.

Lemma held_insert (g : gmap Key (list Q)) k l :
  (prices_held (<[k := l]> g) + length (default [] (g !! k)) = prices_held g + length l)%nat.
Proof.
  destruct (g !! k) as [old|] eqn:Hk; simpl.
  - rewrite <- (insert_delete_id g k old Hk) at 2.
    rewrite <- (insert_delete_eq g k l).
    rewrite !held_insert_fresh by apply lookup_delete_eq. lia.
  - rewrite held_insert_fresh by done. lia.
Qed.

Lemma held_group_append g r :
  prices_held (group_append g r)
  = (prices_held g + match month_key r with Some _ => 1 | None => 0 end)%nat.
Proof.
  unfold group_append. destruct (month_key r) as [k|]; [|lia].
  pose proof (held_insert g k (default [] (g !! k) ++ [price_per_gram r])) as H.
  rewrite length_app in H. simpl in H. lia.
Qed.

Lemma held_fold rs g :
  prices_held (fold_left group_append rs g)
  = (prices_held g + length (filter (λ r, is_Some (month_key r)) rs))%nat.
Proof.
  revert g. induction rs as [|r rs IH]; intros g; simpl; [lia|].
  rewrite IH, held_group_append, filter_cons.
  destruct (decide (is_Some (month_key r))) as [[k Hk]|Hk].
  - rewrite Hk. simpl. lia.
  - destruct (month_key r); [by destruct Hk|]. lia.
Qed.

(** X16.  Every record with a month key is in exactly one group: the sizes
    of the groups add up to the number of such records.  There is one
    aggregate per group, hence never more aggregates than records. *)
Theorem keyed_records_counted_once records :
  sum_list ((λ it : Key * list Q, length it.2) <$> map_to_list (group records))
  = length (filter (λ r, is_Some (month_key r)) records)
  ∧ length (calculate_monthly_medians records)
    = length (map_to_list (group records))
  ∧ (length (calculate_monthly_medians records) ≤ length records)%nat.
Proof.
  assert (sum_list ((λ it : Key * list Q, length it.2) <$> map_to_list (group records))
          = length (filter (λ r, is_Some (month_key r)) records)) as Hsum.
  { pose proof (held_fold records ∅) as H. unfold prices_held in H.
    rewrite map_to_list_empty in H. exact H. }
  assert (length (calculate_monthly_medians records)
          = length (map_to_list (group records))) as Hlen.
  { unfold calculate_monthly_medians. fold (sorted_items records).
    rewrite (Forall2_length _ _ _ (omap_aggregate_of (sorted_items records)
               ltac:(apply Forall_forall; intros [k p] Hin;
                     by apply elem_of_sorted_items in Hin as [_ ?]))).
    unfold sorted_items. by rewrite merge_sort_Permutation. }
  split_and!; [done|done|].
  rewrite Hlen. etrans; [|apply (length_filter (λ r, is_Some (month_key r)))].
  rewrite <- Hsum. clear Hsum Hlen.
  assert (Forall (λ it : Key * list Q, it.2 ≠ []) (map_to_list (group records))) as Hne.
  { apply Forall_forall. intros [k p] Hin%elem_of_map_to_list.
    by apply group_lookup in Hin as [_ ?]. }
  induction Hne as [|[k p] items Hp _ IH]; [done|].
  rewrite fmap_cons. destruct p as [|q p]; [done|].
  change (S (length items)
          ≤ S (length p) + sum_list ((λ it : Key * list Q, length it.2) <$> items))%nat.
  lia.
Qed.

End AggregateBounds.

(** ** [float(repr(x))]: what step 4 writes, the loader reads back *)

Section ReprRoundTrip.
Import PyStr PyFloat.

Lemma fold_digits ds acc :
  fold_left (λ acc d, 10 * acc + d) ds acc
  = acc * 10 ^ Z.of_nat (length ds) + digits_to_Z ds.
Proof.
  unfold digits_to_Z. revert acc. induction ds as [|d ds IH]; intros acc.
  - simpl. lia.
  - cbn [fold_left length]. rewrite IH, (IH (10 * 0 + d)).
    rewrite Nat2Z.inj_succ, Z.pow_succ_r by lia. lia.
Qed.

Lemma digits_to_Z_app ds1 ds2 :
  digits_to_Z (ds1 ++ ds2)
  = digits_to_Z ds1 * 10 ^ Z.of_nat (length ds2) + digits_to_Z ds2.
Proof. unfold digits_to_Z at 1. by rewrite fold_left_app, fold_digits. Qed.

Lemma digits_of_app s t : digits_of (s +:+ t) = digits_of s ++ digits_of t.
Proof.
  induction s as [|a s IH]; [done|]. rewrite str_app_cons. simpl. by rewrite IH.
Qed.

Lemma digits_of_length s : length (digits_of s) = String.length s.
Proof. induction s as [|a s IH]; [done|]. simpl. by rewrite IH. Qed.

Lemma writes_app s t n m :
  writes s n → writes t m →
  writes (s +:+ t) (n * 10 ^ Z.of_nat (String.length t) + m).
Proof.
  intros [Hs <-] [Ht <-]. split.
  - by rewrite all_app, Hs, Ht.
  - by rewrite digits_of_app, digits_to_Z_app, digits_of_length.
Qed.

(** The ten digits. *)
Lemma digit_char (c : Z) :
  0 <= c < 10 →
  is_digit (ascii_of_N (Z.to_N c + 48)) = true
  ∧ digit_val (ascii_of_N (Z.to_N c + 48)) = c.
Proof.
  intros Hc.
  assert (c = 0 ∨ c = 1 ∨ c = 2 ∨ c = 3 ∨ c = 4 ∨ c = 5 ∨ c = 6 ∨ c = 7
          ∨ c = 8 ∨ c = 9) as Hcases by lia.
  repeat (destruct Hcases as [->|Hcases]; [by vm_compute|]).
  by subst c.
Qed.

Lemma pretty_N_char_digit (y : N) :
  (y < 10)%N →
  is_digit (pretty_N_char y) = true ∧ digit_val (pretty_N_char y) = Z.of_N y.
Proof.
  intros Hy.
  assert (y = 0 ∨ y = 1 ∨ y = 2 ∨ y = 3 ∨ y = 4 ∨ y = 5 ∨ y = 6 ∨ y = 7
          ∨ y = 8 ∨ y = 9)%N as Hcases by lia.
  repeat (destruct Hcases as [->|Hcases]; [by vm_compute|]).
  by subst y.
Qed.

(** [str] of a natural number writes it. *)
Lemma pretty_N_go_writes (x : N) :
  ∀ s, ∃ d, pretty_N_go x s = d +:+ s ∧ writes d (Z.of_N x)
            ∧ ((0 < x)%N → d ≠ "").
Proof.
  induction x as [x IH] using (well_founded_induction N.lt_wf_0). intros s.
  destruct (decide (x = 0%N)) as [->|Hx].
  - exists "". rewrite pretty_N_go_0. split_and!; [done|done|lia].
  - rewrite pretty_N_go_step by lia.
    destruct (IH (x `div` 10)%N) with (s := String (pretty_N_char (x `mod` 10)) s)
      as (d & -> & Hd & _).
    { apply N.div_lt; lia. }
    destruct (pretty_N_char_digit (x `mod` 10)%N) as [Hc Hv].
    { apply N.mod_lt. lia. }
    exists (d +:+ String (pretty_N_char (x `mod` 10)) ""). split_and!.
    + by rewrite str_app_assoc, str_app_cons, str_app_nil_l.
    + replace (Z.of_N x)
        with (Z.of_N (x `div` 10) * 10 ^ Z.of_nat (String.length
                (String (pretty_N_char (x `mod` 10)) ""))
              + Z.of_N (x `mod` 10)).
      * apply writes_app; [done|]. split; [by simpl; rewrite Hc|].
        simpl. unfold digits_to_Z. simpl. lia.
      * simpl. rewrite (N.div_mod x 10) at 3 by lia. lia.
    + intros _. by destruct d.
Qed.

Lemma pretty_Z_writes (z : Z) :
  0 <= z → ∃ a d, pretty z = String a d ∧ writes (String a d) z.
Proof.
  intros Hz. destruct z as [|p|p]; [|  |lia].
  - exists "0"%char, "". split; [done|]. by split.
  - destruct (pretty_N_go_writes (Npos p) "") as (d & E & Hd & Hne).
    rewrite str_app_nil_r in E.
    destruct d as [|a d]; [by destruct Hne|].
    exists a, d. split; [|done]. exact E.
Qed.

(** The digits after the point. *)
Lemma frac_digits_writes fuel :
  ∀ rem den j,
    0 <= rem < den → (den | rem * 10 ^ Z.of_nat j) → (j ≤ fuel)%nat →
    ∃ v, writes (frac_digits fuel rem den) v
         ∧ v * den = rem * 10 ^ Z.of_nat (String.length (frac_digits fuel rem den)).
Proof.
  induction fuel as [|fuel IH]; intros rem den j Hrem Hdiv Hj.
  - assert (j = 0%nat) as -> by lia. simpl in Hdiv. rewrite Z.mul_1_r in Hdiv.
    assert (rem = 0) as ->.
    { destruct (decide (rem = 0)) as [|Hne]; [done|].
      apply Z.divide_pos_le in Hdiv; lia. }
    exists 0. split; [by split|]. simpl. lia.
  - cbn [frac_digits]. destruct (rem =? 0) eqn:E.
    + apply Z.eqb_eq in E as ->. exists 0. split; [by split|]. simpl. lia.
    + apply Z.eqb_neq in E.
      destruct j as [|j].
      { simpl in Hdiv. rewrite Z.mul_1_r in Hdiv.
        apply Z.divide_pos_le in Hdiv; lia. }
      set (c := rem * 10 / den). set (rem' := rem * 10 mod den).
      assert (rem * 10 = den * c + rem') as Hdm by (apply Z.div_mod; lia).
      assert (0 <= rem' < den) as Hrem' by (apply Z.mod_pos_bound; lia).
      assert (0 <= c < 10) as Hc.
      { split; [apply Z.div_pos; lia|]. apply Z.div_lt_upper_bound; lia. }
      destruct (IH rem' den j Hrem') as (v & [Hd Hv] & Hval); [|lia|].
      { rewrite Nat2Z.inj_succ, Z.pow_succ_r in Hdiv by lia.
        replace (rem * (10 * 10 ^ Z.of_nat j))
          with (rem' * 10 ^ Z.of_nat j + den * (c * 10 ^ Z.of_nat j)) in Hdiv by lia.
        apply (Z.divide_add_cancel_r den (den * (c * 10 ^ Z.of_nat j))); [|by rewrite Z.add_comm].
        by apply Z.divide_factor_l. }
      destruct (digit_char c Hc) as [Hch Hcv].
      set (s := frac_digits fuel rem' den) in *.
      exists (c * 10 ^ Z.of_nat (String.length s) + v). split.
      * split; [by simpl; rewrite Hch|].
        cbn [digits_of]. rewrite Hcv.
        change (c :: digits_of s) with ([c] ++ digits_of s).
        rewrite digits_to_Z_app, digits_of_length, Hv.
        unfold digits_to_Z. simpl. lia.
      * cbn [String.length]. rewrite Nat2Z.inj_succ, Z.pow_succ_r by lia.
        nia.
Qed.

(** A run of digits is read as the number it writes. *)
Lemma digitpart_rest_writes d rest :
  all is_digit d = true → stops rest →
  digitpart_rest (d +:+ rest) = (digits_of d, rest).
Proof.
  intros Hd Hstop. induction d as [|a d IH].
  - rewrite str_app_nil_l. destruct rest as [|c r]; [done|].
    destruct Hstop as [Hc Hne]. simpl. rewrite Hc.
    by rewrite decide_False.
  - simpl in Hd. apply andb_true_iff in Hd as [Ha Hd].
    rewrite str_app_cons. simpl. by rewrite Ha, (IH Hd).
Qed.

Lemma digitpart_writes a d rest :
  is_digit a = true → all is_digit d = true → stops rest →
  digitpart (String a (d +:+ rest)) = Some (digits_of (String a d), rest).
Proof.
  intros Ha Hd Hstop. unfold digitpart.
  by rewrite Ha, (digitpart_rest_writes d rest Hd Hstop).
Qed.

(** [float] on a numeral with digits on both sides of the point. *)
Lemma of_string_numeral a d b f :
  is_digit a = true → all is_digit d = true →
  is_digit b = true → all is_digit f = true →
  of_string (String a d +:+ "." +:+ String b f)
  = Some (Qred (inject_Z (digits_to_Z (digits_of (String a d) ++ digits_of (String b f)))
                / inject_Z (10 ^ Z.of_nat (String.length (String b f))))).
Proof.
  intros Ha Hd Hb Hf. unfold of_string.
  rewrite strip_nospace.
  2:{ rewrite !all_app. simpl. rewrite (digit_not_space a Ha), (digit_not_space b Hb).
      rewrite (all_impl is_digit not_space d digit_not_space Hd).
      by rewrite (all_impl is_digit not_space f digit_not_space Hf). }
  rewrite str_app_cons, (sign_digit a _ Ha).
  unfold number. rewrite str_app_cons, str_app_nil_l.
  rewrite (digitpart_writes a d (String "." (String b f)) Ha Hd) by done.
  pose proof (digitpart_writes b f "" Hb Hf I) as E.
  rewrite str_app_nil_r in E. rewrite E.
  cbn [exponent]. unfold scale10. rewrite digits_of_length.
  destruct (0 <=? 0 - Z.of_nat (String.length (String b f))) eqn:Hneg.
  { apply Z.leb_le in Hneg. simpl in Hneg. lia. }
  by replace (- (0 - Z.of_nat (String.length (String b f))))
    with (Z.of_nat (String.length (String b f))) by lia.
Qed.

(** [repr] of a non-negative fraction with at most twenty decimals is read
    back by [float] as the same fraction. *)
Lemma of_string_repr (q : Q) (j : nat) (k : Z) :
  (0 <= q)%Q → Qred q = q → (j ≤ 20)%nat →
  (q * inject_Z (10 ^ Z.of_nat j) == inject_Z k)%Q →
  of_string (repr q) = Some q.
Proof.
  intros Hq Hred Hj Hk. destruct q as [n d].
  assert (0 <= n) as Hn by (unfold Qle in Hq; simpl in Hq; lia).
  assert (Z.gcd n (Z.pos d) = 1) as Hgcd by (by apply Qcanon.Qred_iff in Hred).
  assert ((Z.pos d | 10 ^ Z.of_nat j)) as Hdiv.
  { unfold Qeq in Hk. simpl in Hk. rewrite Z.mul_1_r in Hk.
    apply (Z.gauss _ n); [|by rewrite Z.gcd_comm].
    exists k. lia. }
  unfold repr. cbn [Qnum Qden]. rewrite Z.abs_eq by done.
  destruct (n <? 0) eqn:Hneg; [apply Z.ltb_lt in Hneg; lia|].
  rewrite str_app_nil_l.
  destruct (pretty_Z_writes (n / Z.pos d)) as (a & ds & -> & [Hi Hiv]).
  { apply Z.div_pos; lia. }
  simpl in Hi. apply andb_true_iff in Hi as [Ha Hds].
  destruct (frac_digits_writes 20 (n mod Z.pos d) (Z.pos d) j) as (v & [Hf Hfv] & Hval).
  { apply Z.mod_pos_bound. lia. }
  { apply Z.divide_mul_r. done. }
  { done. }
  set (frac := frac_digits 20 (n mod Z.pos d) (Z.pos d)) in *.
  assert (∃ b f, (if decide (frac = "") then "0" else frac) = String b f
                 ∧ is_digit b = true ∧ all is_digit f = true
                 ∧ digits_to_Z (digits_of (String b f)) * Z.pos d
                   = (n mod Z.pos d) * 10 ^ Z.of_nat (String.length (String b f)))
    as (b & f & -> & Hb & Hfd & Hfval).
  { destruct (decide (frac = "")) as [E|E].
    - exists "0"%char, "". split_and!; [done..|].
      rewrite E in Hval, Hfv. unfold digits_to_Z in Hfv.
      cbn [digits_of fold_left] in Hfv. subst v.
      cbn [String.length Z.of_nat] in Hval. rewrite Z.pow_0_r in Hval.
      assert (n mod Z.pos d = 0) as -> by lia. done.
    - destruct frac as [|b f]; [done|]. exists b, f.
      simpl in Hf. apply andb_true_iff in Hf as [Hb Hf].
      split_and!; [done..|]. by rewrite Hfv. }
  rewrite (of_string_numeral a ds b f Ha Hds Hb Hfd). f_equal.
  rewrite <- Hred. apply Qred_complete.
  rewrite digits_to_Z_app, digits_of_length, Hiv.
  set (L := String.length (String b f)) in *.
  set (F := digits_to_Z (digits_of (String b f))) in *.
  assert (0 < 10 ^ Z.of_nat L) as Hpow by (apply Z.pow_pos_nonneg; lia).
  unfold Qeq, Qdiv, Qmult, Qinv, inject_Z. simpl.
  destruct (10 ^ Z.of_nat L) as [|pw|pw] eqn:Epw; [lia| |lia].
  simpl. pose proof (Z.div_mod n (Z.pos d) ltac:(lia)) as Hdm.
  rewrite Pos2Z.inj_mul. nia.
Qed.

End ReprRoundTrip.

(** ** From the processor to the loader *)

Lemma csv_row_price_per_gram c :
  csv_row c !! "price_per_gram" = Some (cell (PyFloat.repr <$> c_price_per_gram c)).
Proof.
  unfold csv_row.
  by rewrite lookup_insert_ne, lookup_insert_ne, lookup_insert_ne,
    lookup_insert_ne, lookup_insert_ne, lookup_insert_eq.
Qed.

Lemma csv_row_sale_date c :
  csv_row c !! "sale_date" = Some (cell (c_sale_date c)).
Proof.
  unfold csv_row.
  by rewrite lookup_insert_ne, lookup_insert_ne, lookup_insert_ne,
    lookup_insert_eq.
Qed.

Lemma csv_row_material_slug c :
  csv_row c !! "material_slug" = Some (c_material_slug c).
Proof. unfold csv_row. by rewrite lookup_insert_eq. Qed.

Lemma of_string_empty : PyFloat.of_string "" = None.
Proof. reflexivity. Qed.

(** A record whose price per gram is a non-negative number of cents is
    loaded, or dropped, on the values the processor computed. *)
Lemma load_row_csv_row c :
  (∀ g, c_price_per_gram c = Some g →
        (0 <= g)%Q ∧ Qred g = g ∧ ∃ k : Z, (g * inject_Z (10 ^ Z.of_nat 2) == inject_Z k)%Q) →
  Importer.load_row (csv_row c) = sale_of c.
Proof.
  intros Hg. unfold Importer.load_row, sale_of, get, get_or.
  rewrite csv_row_price_per_gram, csv_row_sale_date, csv_row_material_slug.
  destruct (c_price_per_gram c) as [g|]; [|done].
  destruct (Hg g eq_refl) as (Hpos & Hred & k & Hk).
  pose proof (of_string_repr g 2 k Hpos Hred ltac:(lia) Hk) as Hrt.
  cbn [fmap option_fmap option_map cell default]. unfold id.
  assert (PyStr.truthy (Some (PyFloat.repr g)) = true) as ->.
  { destruct (PyFloat.repr g); [by rewrite of_string_empty in Hrt|done]. }
  rewrite Hrt. cbn [negb orb].
  destruct (c_sale_date c) as [[|a date]|]; [done| |done].
  cbn [cell default PyStr.truthy negb orb]. done.
Qed.

Section Composition.
Variable datetime : Type.
Variable strptime : string → string → option datetime.
Variable strftime : datetime → string → string.

Local Abbreviation normalize' := (normalize datetime strptime strftime).

Lemma normalized_price_per_gram filtered c g :
  c ∈ normalize' filtered → c_price_per_gram c = Some g →
  (0 <= g)%Q ∧ Qred g = g
  ∧ ∃ k : Z, (g * inject_Z (10 ^ Z.of_nat 2) == inject_Z k)%Q.
Proof.
  intros (slug & rows & row & _ & _ & Hc)%elem_of_normalize.
  pose proof Hc as Hc'. unfold normalize_row in Hc'.
  destruct (parse_price _) as [price|] eqn:Hp; [|done].
  destruct (PyFloat.truthy price) eqn:Ht; [|done]. simpl in Hc'.
  injection Hc' as <-. simpl.
  destruct (parse_price_bounds _ _ Hp) as ([Hlo Hhi] & (k & Hk)).
  intros (w & Hw & Hpos & ->)%price_per_gram_of_Some. split_and!.
  - eapply Qle_trans; [|apply (round_mono 0 _ 2)]; [by apply leb_le|].
    unfold PyFloat.div. rewrite Qred_correct.
    apply Qle_shift_div_l; [done|]. lra.
  - apply round_canonical.
  - eexists. apply (round_on_grid _ 2).
Qed.

(** X13.  The CSV text between the two scripts loses nothing the loader
    needs: loading the rows written in step 4 gives, record by record, the
    material, the price per gram and the date that step 3 computed, for
    exactly the records with a non-empty date and a price per gram in
    (0, 50000]. *)
Theorem loader_reads_what_processor_wrote filtered :
  Importer.load_merged_csv (csv_row <$> normalize' filtered)
  = omap sale_of (normalize' filtered).
Proof.
  unfold Importer.load_merged_csv.
  assert (∀ l, Forall (λ c, c ∈ normalize' filtered) l →
               omap Importer.load_row (csv_row <$> l) = omap sale_of l) as H.
  { induction 1 as [|c l Hc _ IH]; [done|].
    rewrite fmap_cons. cbn [omap list_omap]. rewrite IH, load_row_csv_row; [done|].
    intros g. by apply (normalized_price_per_gram filtered). }
  apply H, Forall_forall. auto.
Qed.

End Composition.

Example loader_reads_what_processor_wrote_sample :
  Importer.load_merged_csv
    (csv_row <$> normalize Empty_set strptime0 strftime0
                   [("trinitite", [dated_row; tiny_weight_row])])
  = [Importer.Sale "trinitite" 5 (Some "Jan 5, 2024")].
Proof. vm_compute. reflexivity. Qed.

(** ** Step 5: the overall figures *)


Lemma omap_length_le {A B} (f : A → option B) (l : list A) :
  (length (omap f l) ≤ length l)%nat.
Proof.
  induction l as [|x l IH]; [done|]. cbn [omap list_omap].
  destruct (f x); simpl; lia.
Qed.

Section SummaryFigures.
Variable datetime : Type.
Variable strptime : string → string → option datetime.
Variable strftime : datetime → string → string.

Local Abbreviation normalize' := (normalize datetime strptime strftime).
Local Abbreviation main_with' := (main_with datetime strptime strftime).

Lemma normalized_price_truthy filtered c :
  c ∈ normalize' filtered → PyFloat.truthy (c_price_usd c) = true.
Proof.
  intros (slug & rows & row & _ & _ & Hc)%elem_of_normalize.
  unfold normalize_row in Hc.
  destruct (parse_price _) as [price|]; [|done].
  destruct (PyFloat.truthy price) eqn:Ht; [|done]. by injection Hc as <-.
Qed.

Lemma all_prices_normalized filtered :
  all_prices (normalize' filtered) = c_price_usd <$> normalize' filtered.
Proof.
  unfold all_prices. f_equal.
  assert (∀ l, Forall (λ c, PyFloat.truthy (c_price_usd c) = true) l →
               filter (λ c, PyFloat.truthy (c_price_usd c) = true) l = l) as H.
  { induction 1 as [|c l Hc _ IH]; [done|].
    by rewrite filter_cons, decide_True, IH. }
  apply H, Forall_forall. intros c. apply normalized_price_truthy.
Qed.

(** X11.  Step 5 keeps every price in [all_prices], so [min] raises
    exactly when step 3 produced no record, which is when the merged CSV
    has no row; in every other case the records are returned. *)
Theorem summary_fails_only_without_records config raw_data :
  let out := main_with' config raw_data in
  let all_rows := normalize' (filtered_data (run (filter_files config step2_init raw_data))) in
  returned out = step5 all_rows
  ∧ all_prices all_rows = c_price_usd <$> all_rows
  ∧ (returned out = inl ValueError ↔ merged_csv out = Some [])
  ∧ (length (all_ppg all_rows) ≤ length all_rows)%nat.
Proof.
  intros out all_rows. unfold out, main_with. cbn [returned merged_csv].
  fold all_rows.
  assert (all_prices all_rows = c_price_usd <$> all_rows) as Hprices
    by apply all_prices_normalized.
  split_and!.
  - unfold step5. rewrite Hprices. by destruct all_rows.
  - done.
  - destruct all_rows; [done|]. split; [done|]. by rewrite fmap_cons.
  - unfold all_ppg. apply omap_length_le.
Qed.

End SummaryFigures.



(** ** [insert_to_supabase]: every record is counted once *)

Lemma sum_list_cons n l : sum_list (n :: l) = (n + sum_list l)%nat.
Proof. reflexivity. Qed.

Section Uploading.
Import Importer Upload.
Variable net : nat → response.

Lemma post_record_counts st record :
  (inserted (post_record net st record) + errors (post_record net st record)
   = S (inserted st + errors st))%nat
  ∧ requests (post_record net st record) = S (requests st)
  ∧ (errors st ≤ errors (post_record net st record))%nat.
Proof. unfold post_record. destruct (net (requests st)); simpl; lia. Qed.

Lemma post_records_counts batch st :
  let st' := fold_left (post_record net) batch st in
  (inserted st' + errors st' = inserted st + errors st + length batch)%nat
  ∧ requests st' = (requests st + length batch)%nat
  ∧ (errors st ≤ errors st')%nat.
Proof.
  revert st. induction batch as [|record batch IH]; intros st; simpl; [lia|].
  destruct (IH (post_record net st record)) as (E1 & E2 & E3).
  destruct (post_record_counts st record) as (F1 & F2 & F3). lia.
Qed.

Lemma post_batch_counts st batch st' :
  post_batch net st batch = Some st' →
  (inserted st' + errors st' = inserted st + errors st + length batch)%nat
  ∧ (requests st < requests st' ≤ requests st + 1 + length batch)%nat
  ∧ (errors st ≤ errors st')%nat.
Proof.
  unfold post_batch. destruct (net (requests st)) as [|[]|].
  - intros [= <-]. simpl. lia.
  - intros [= <-].
    destruct (post_records_counts batch
                (Progress (inserted st) (errors st) (S (requests st))))
      as (E1 & E2 & E3). simpl in *. lia.
  - done.
  - intros [= <-]. simpl. lia.
Qed.

Lemma post_from_None records starts :
  fold_left (post_from net records) starts None = None.
Proof. induction starts as [|i starts IH]; [done|]. simpl. exact IH. Qed.

Lemma post_from_counts records starts st st' :
  fold_left (post_from net records) starts (Some st) = Some st' →
  (inserted st' + errors st'
   = inserted st + errors st
     + sum_list ((λ i, length (take batch_size (drop i records))) <$> starts))%nat
  ∧ (requests st + length starts ≤ requests st')%nat
  ∧ (errors st ≤ errors st')%nat.
Proof.
  revert st. induction starts as [|i starts IH]; intros st.
  - intros [= <-]. simpl. lia.
  - cbn [fold_left]. unfold post_from at 2. cbn [mbind option_bind].
    destruct (post_batch net st (take batch_size (drop i records))) as [st1|] eqn:E.
    + intros H. apply IH in H as (H1 & H2 & H3).
      apply post_batch_counts in E as (E1 & E2 & E3).
      rewrite fmap_cons, sum_list_cons. cbn [length]. lia.
    + by rewrite post_from_None.
Qed.

Lemma range_step_covers (records : list aggregate) m :
  sum_list ((λ i, length (take batch_size (drop i records)))
              <$> ((λ k, k * batch_size)%nat <$> seq 0 m))
  = ((m * batch_size) `min` length records)%nat.
Proof.
  induction m as [|m IH]; [done|].
  rewrite seq_S, !fmap_app, !list_fmap_singleton, sum_list_snoc, IH.
  rewrite length_take, length_drop. rewrite Nat.add_0_l.
  generalize batch_size. intros b. lia.
Qed.

Lemma range_step_sum (records : list aggregate) :
  sum_list ((λ i, length (take batch_size (drop i records)))
              <$> range_step (length records))
  = length records.
Proof.
  unfold range_step. rewrite range_step_covers. unfold batch_size.
  pose proof (Nat.div_mod (length records + (100 - 1)) 100 ltac:(lia)) as Hdm.
  pose proof (Nat.mod_upper_bound (length records + (100 - 1)) 100 ltac:(lia)).
  lia.
Qed.

Lemma range_step_batches (records : list aggregate) :
  Forall (λ i, 1 ≤ length (take batch_size (drop i records)) ≤ batch_size)%nat
    (range_step (length records)).
Proof.
  apply Forall_forall. intros i (k & -> & Hk)%list_elem_of_fmap.
  apply elem_of_seq in Hk. rewrite length_take, length_drop.
  unfold batch_size in *.
  pose proof (Nat.div_mod (length records + (100 - 1)) 100 ltac:(lia)) as Hdm.
  pose proof (Nat.mod_upper_bound (length records + (100 - 1)) 100 ltac:(lia)).
  lia.
Qed.

Lemma post_from_raises records starts st :
  fold_left (post_from net records) starts (Some st) = None →
  ∃ n, net n = HTTPError false.
Proof.
  revert st. induction starts as [|i starts IH]; intros st; [done|].
  cbn [fold_left]. unfold post_from at 2. cbn [mbind option_bind].
  destruct (post_batch net st (take batch_size (drop i records))) as [st1|] eqn:E.
  - apply IH.
  - intros _. unfold post_batch in E. exists (requests st).
    by destruct (net (requests st)) as [|[]|].
Qed.

Lemma post_from_accepted records starts st st' :
  (∀ n, net n = Accepted) →
  fold_left (post_from net records) starts (Some st) = Some st' →
  errors st' = errors st.
Proof.
  intros Hnet. revert st. induction starts as [|i starts IH]; intros st.
  - by intros [= <-].
  - cbn [fold_left]. unfold post_from at 2. cbn [mbind option_bind].
    unfold post_batch. rewrite Hnet. intros H. by apply IH in H.
Qed.

(** X17.  When the upload returns, every record is counted once, as
    inserted or as an error, and there is no error if every request is
    accepted; it raises only if the body of an [HTTPError] cannot be read.
    Every batch holds between 1 and 100 records. *)
Theorem upload_counts_every_record records :
  match insert_to_supabase net records with
  | Some (n_inserted, n_errors) =>
      (n_inserted + n_errors = length records)%nat
      ∧ ((∀ n, net n = Accepted) → n_errors = 0%nat)
  | None => ∃ n, net n = HTTPError false
  end
  ∧ Forall (λ i, 1 ≤ length (take batch_size (drop i records)) ≤ batch_size)%nat
      (range_step (length records)).
Proof.
  split; [|apply range_step_batches].
  unfold insert_to_supabase, run_batches.
  destruct (fold_left _ _ _) as [st|] eqn:E; cbn [mbind option_bind].
  - split.
    + apply post_from_counts in E as (E1 & _). rewrite range_step_sum in E1.
      simpl in E1. lia.
    + intros Hnet. by apply (post_from_accepted _ _ _ _ Hnet) in E.
  - by apply post_from_raises in E.
Qed.

End Uploading.

Example insert_to_supabase_sample :
  Upload.insert_to_supabase
    (λ n, if decide (n = 0)%nat then Upload.HTTPError true
          else if decide (n = 2)%nat then Upload.OtherError
          else Upload.Accepted)
    (replicate 3 (Importer.Aggregate "x" 1 "gram" "WorthPoint (n=1)" "2024-01-15"))
  = Some (2%nat, 1%nat)
  ∧ Upload.insert_to_supabase (λ _, Upload.Accepted)
      (replicate 250 (Importer.Aggregate "x" 1 "gram" "WorthPoint (n=1)" "2024-01-15"))
    = Some (250%nat, 0%nat)
  ∧ Upload.range_step 250 = [0; 100; 200]%nat
  ∧ Upload.insert_to_supabase (λ _, Upload.HTTPError false)
      (replicate 3 (Importer.Aggregate "x" 1 "gram" "WorthPoint (n=1)" "2024-01-15"))
    = None.
Proof. split_and!; vm_compute; reflexivity. Qed.

(** ** Step 2 keeps the first occurrence of every key *)

(** Equality of two sets built from unions and singletons. *)
Ltac same_elements :=
  apply set_eq; intros ?;
  rewrite ?elem_of_union, ?elem_of_singleton, ?elem_of_empty;
  intuition (subst; tauto).

Lemma rows_of_dd_append slug' slug row d :
  rows_of slug' (dd_append slug row d)
  = rows_of slug' d ++ (if decide (slug = slug') then [row] else []).
Proof.
  unfold rows_of. induction d as [|[k rows] d IH].
  - simpl. destruct (decide (slug = slug')) as [->|Hne].
    + by rewrite bool_decide_true.
    + by rewrite bool_decide_false.
  - cbn [dd_append]. destruct (decide (k = slug)) as [->|Hne].
    + cbn [List.find fst]. destruct (decide (slug = slug')) as [->|Hne'].
      * by rewrite !bool_decide_true.
      * rewrite !bool_decide_false by done. by rewrite app_nil_r.
    + cbn [List.find fst]. destruct (bool_decide (k = slug')) eqn:E.
      * apply bool_decide_eq_true in E as <-.
        rewrite decide_False by done. by rewrite app_nil_r.
      * exact IH.
Qed.

Lemma keys_of_app l1 l2 : keys_of (l1 ++ l2) = keys_of l1 ∪ keys_of l2.
Proof. unfold keys_of. by rewrite fmap_app, list_to_set_app_L. Qed.

Lemma first_occurrences_app seen l1 l2 :
  first_occurrences seen (l1 ++ l2)
  = first_occurrences seen l1 ++ first_occurrences (seen ∪ keys_of l1) l2.
Proof.
  revert seen. induction l1 as [|p l1 IH]; intros seen.
  - simpl. f_equal. unfold keys_of. simpl. same_elements.
  - cbn [app first_occurrences].
    assert (keys_of (p :: l1) = {[key_of p.2]} ∪ keys_of l1) as -> by done.
    destruct (decide (key_of p.2 ∈ seen)) as [Hin|Hnin].
    + rewrite IH. do 2 f_equal. same_elements.
    + rewrite IH. cbn [app]. do 3 f_equal. same_elements.
Qed.

Lemma stored_under_app slug seen l1 l2 :
  stored_under slug seen (l1 ++ l2)
  = stored_under slug seen l1 ++ stored_under slug (seen ∪ keys_of l1) l2.
Proof.
  unfold stored_under. by rewrite first_occurrences_app, filter_app, fmap_app.
Qed.

Section FirstOccurrences.
Variable config : ruleset_table.

(** One step of the inner loop, on the candidates of the row. *)
Lemma filter_row_candidates slug (f : string → bool) st row :
  let c := if f (title_of row) then [(slug, row)] else [] in
  seen_titles (filter_row slug f st row) = seen_titles st ∪ keys_of c
  ∧ ∀ s, rows_of s (filtered_data (filter_row slug f st row))
         = rows_of s (filtered_data st) ++ stored_under s (seen_titles st) c.
Proof.
  destruct (filter_row_cases f st row) as [H|[[H1 H2]|[H1 H2]]].
  - rewrite filter_row_rejected by done. rewrite H. cbn zeta. simpl. split.
    + unfold keys_of. simpl. same_elements.
    + intros s. by rewrite app_nil_r.
  - rewrite filter_row_duplicate by done. rewrite H1. cbn zeta.
    cbn [seen_titles filtered_data]. split.
    + unfold keys_of. simpl. same_elements.
    + intros s. unfold stored_under. cbn [first_occurrences snd].
      rewrite decide_True by done. by rewrite app_nil_r.
  - rewrite filter_row_admitted by done. rewrite H1. cbn zeta.
    cbn [seen_titles filtered_data]. split.
    + unfold keys_of. simpl. same_elements.
    + intros s. rewrite rows_of_dd_append. f_equal.
      unfold stored_under. cbn [first_occurrences snd].
      destruct (decide (key_of row ∈ seen_titles st)) as [Hin|_]; [done|].
      rewrite filter_cons. cbn [fst].
      destruct (decide (slug = s)) as [->|Hne]; [done|done].
Qed.

Lemma filter_rows_candidates slug (f : string → bool) rows st :
  let c := (λ row, (slug, row)) <$> filter (λ row, f (title_of row) = true) rows in
  seen_titles (filter_rows slug f st rows) = seen_titles st ∪ keys_of c
  ∧ ∀ s, rows_of s (filtered_data (filter_rows slug f st rows))
         = rows_of s (filtered_data st) ++ stored_under s (seen_titles st) c.
Proof.
  revert st. induction rows as [|row rows IH]; intros st.
  - cbn zeta. simpl. split; [unfold keys_of; simpl; same_elements|].
    intros s. by rewrite app_nil_r.
  - unfold filter_rows in *. cbn [fold_left].
    destruct (IH (filter_row slug f st row)) as [E1 E2].
    destruct (filter_row_candidates slug f st row) as [F1 F2].
    cbn zeta in *. rewrite filter_cons.
    destruct (decide (f (title_of row) = true)) as [Hf|Hf].
    + rewrite Hf in F1, F2. rewrite fmap_cons.
      change ((slug, row) :: ?l) with ([(slug, row)] ++ l).
      split.
      * rewrite E1, F1, keys_of_app. same_elements.
      * intros s. rewrite E2, F2, stored_under_app, F1. by rewrite app_assoc.
    + apply not_true_is_false in Hf. rewrite Hf in F1, F2.
      assert (seen_titles (filter_row slug f st row) = seen_titles st) as Hs.
      { rewrite F1. unfold keys_of. simpl. same_elements. }
      split.
      * by rewrite E1, Hs.
      * intros s. rewrite E2, F2, Hs. unfold stored_under at 1. simpl.
        by rewrite app_nil_r.
Qed.

Lemma filter_file_candidates st file :
  let c := candidates_of config file in
  seen_titles (run (filter_file config st file)) = seen_titles (run st) ∪ keys_of c
  ∧ ∀ s, rows_of s (filtered_data (run (filter_file config st file)))
         = rows_of s (filtered_data (run st))
           ++ stored_under s (seen_titles (run st)) c.
Proof.
  cbn zeta. unfold candidates_of.
  destruct (filter_file_step config st file) as [[Hk ->]|[Hk (slug & f & E)]].
  - cbn [run].
    assert (match get_material_key config file.1 with
            | Some key =>
                if PyStr.truthy (Some key) then
                  match config_lookup config key with
                  | Some (slug, filter_fn) =>
                      (λ row, (slug, row))
                        <$> filter (λ row, filter_fn (title_of row) = true) file.2
                  | None => []
                  end
                else []
            | None => []
            end = []) as ->.
    { destruct (get_material_key config file.1) as [key|]; [|done].
      by rewrite Hk. }
    split; [unfold keys_of; simpl; same_elements|].
    intros s. unfold stored_under. simpl. by rewrite app_nil_r.
  - destruct (filter_file_cases config st file)
      as [[_ Hstats]|(key & slug' & f' & Hkey & Ht & Hl & E')].
    { rewrite E in Hstats. cbn [filter_stats] in Hstats.
      apply (f_equal length) in Hstats. rewrite length_app in Hstats.
      simpl in Hstats. lia. }
    rewrite Hkey, Ht, Hl, E'. cbn zeta. cbn [run].
    apply (filter_rows_candidates slug' f' file.2
             (FilterState (filtered_data (run st)) (seen_titles (run st)) 0 0
                (trace (run st)))).
Qed.

Lemma filter_files_candidates raw_data st :
  let c := candidates config raw_data in
  seen_titles (run (filter_files config st raw_data))
  = seen_titles (run st) ∪ keys_of c
  ∧ ∀ s, rows_of s (filtered_data (run (filter_files config st raw_data)))
         = rows_of s (filtered_data (run st))
           ++ stored_under s (seen_titles (run st)) c.
Proof.
  revert st. induction raw_data as [|file raw_data IH]; intros st.
  - cbn zeta. simpl. split; [unfold keys_of; simpl; same_elements|].
    intros s. unfold stored_under. simpl. by rewrite app_nil_r.
  - unfold filter_files in *. cbn [fold_left]. unfold candidates in *.
    rewrite bind_cons. cbn zeta in *.
    destruct (IH (filter_file config st file)) as [E1 E2].
    destruct (filter_file_candidates st file) as [F1 F2]. cbn zeta in *.
    split.
    + rewrite E1, F1, keys_of_app. same_elements.
    + intros s. rewrite E2, F2, stored_under_app, F1. by rewrite app_assoc.
Qed.

(** X18.  Step 2 is a filter followed by a de-duplication that keeps first
    occurrences: under every material identifier, [filtered_data] holds, in
    the order of the loops, the rows of the files with a key whose title
    the ruleset of the file accepts and whose key no earlier such row has,
    each with its [material_slug] cell set; the seen keys are the keys of
    all accepted rows, so no accepted key is lost. *)
Theorem step2_keeps_first_occurrences raw_data :
  let st := run (filter_files config step2_init raw_data) in
  seen_titles st = keys_of (candidates config raw_data)
  ∧ ∀ slug, rows_of slug (filtered_data st)
            = stored <$> filter (λ p : string * Row, p.1 = slug)
                           (first_occurrences ∅ (candidates config raw_data)).
Proof.
  intros st. destruct (filter_files_candidates raw_data step2_init) as [E1 E2].
  cbn zeta in *. fold st in E1, E2. split.
  - rewrite E1. simpl. same_elements.
  - intros slug. rewrite E2. done.
Qed.

End FirstOccurrences.

Example step2_keeps_first_occurrences_sample :
  candidates MATERIAL_CONFIG
    [("trinitite.csv", [trinitite_row; red_bowl; trinitite_row]);
     ("misc.csv", [trinitite_row])]
  = [("trinitite", trinitite_row); ("trinitite", trinitite_row)]
  ∧ first_occurrences ∅
      [("trinitite", trinitite_row); ("trinitite", trinitite_row)]
    = [("trinitite", trinitite_row)].
Proof. split; vm_compute; reflexivity. Qed.

(** ** [extract_weight] does not look at the case of the letters *)

Section IgnoreCase.
Import PyStr Regex.

Lemma lower_char_idem a : lower_char (lower_char a) = lower_char a.
Proof. destruct a as [[] [] [] [] [] [] [] []]; reflexivity. Qed.

Lemma is_digit_lower a : is_digit (lower_char a) = is_digit a.
Proof. destruct a as [[] [] [] [] [] [] [] []]; reflexivity. Qed.

Lemma is_space_lower a : is_space (lower_char a) = is_space a.
Proof. destruct a as [[] [] [] [] [] [] [] []]; reflexivity. Qed.

Lemma newline_lower a :
  bool_decide (lower_char a = "010"%char) = bool_decide (a = "010"%char).
Proof. destruct a as [[] [] [] [] [] [] [] []]; reflexivity. Qed.

Lemma is_digit_lower_char a : is_digit a = true → lower_char a = a.
Proof. destruct a as [[] [] [] [] [] [] [] []]; done. Qed.

Lemma cset_match_lower c a : cset_match c (lower_char a) = cset_match c a.
Proof.
  destruct c as [| |b|l]; simpl.
  - apply is_digit_lower.
  - apply is_space_lower.
  - unfold same_letter. by rewrite lower_char_idem.
  - induction l as [|b l IH]; [done|]. simpl. rewrite IH.
    unfold same_letter. by rewrite lower_char_idem.
Qed.

Lemma lower_length s : String.length (lower s) = String.length s.
Proof. induction s as [|a s IH]; [done|]. simpl. by rewrite IH. Qed.

Lemma lower_take n s : take n (lower s) = lower (take n s).
Proof.
  revert s. induction n as [|n IH]; intros [|a s]; simpl; try done.
  by rewrite IH.
Qed.

Lemma lower_digits d : all is_digit d = true → lower d = d.
Proof.
  induction d as [|a d IH]; [done|]. simpl.
  intros [Ha Hd]%andb_true_iff. by rewrite (is_digit_lower_char a Ha), IH.
Qed.

Lemma lower_app s t : lower (s +:+ t) = lower s +:+ lower t.
Proof.
  induction s as [|a s IH]; [done|]. rewrite str_app_cons. simpl.
  by rewrite IH, str_app_cons.
Qed.

Lemma at_end_lower s : at_end (lower s) = at_end s.
Proof.
  destruct s as [|a [|b s]]; [done| |done]. simpl. apply newline_lower.
Qed.

Lemma star_lower c s : star c (lower s) = lower <$> star c s.
Proof.
  induction s as [|a s IH]; [done|]. simpl. rewrite cset_match_lower.
  destruct (cset_match c a); [|done]. by rewrite IH, fmap_app.
Qed.

Lemma bind_fmap_states (f : state → list state) (l : list state) :
  (∀ st, f (lower_state st) = lower_state <$> f st) →
  (lower_state <$> l) ≫= f = lower_state <$> (l ≫= f).
Proof.
  intros Hf. induction l as [|st l IH]; [done|].
  rewrite fmap_cons, !bind_cons, fmap_app, Hf, IH. done.
Qed.

(** The matcher on the lowercased text runs as on the text. *)
Lemma ends_lower r st : ends r (lower_state st) = lower_state <$> ends r st.
Proof.
  revert st. induction r as [|c|r1 IH1 r2 IH2|r1 IH1 r2 IH2|r1 IH1|c|c| |r1 IH1];
    intros [g s]; cbn [ends lower_state fst snd].
  - done.
  - destruct s as [|a s']; [done|]. simpl. rewrite cset_match_lower.
    by destruct (cset_match c a).
  - change (lower <$> g, lower s) with (lower_state (g, s)).
    rewrite IH1. by apply bind_fmap_states.
  - change (lower <$> g, lower s) with (lower_state (g, s)).
    by rewrite IH1, IH2, fmap_app.
  - change (lower <$> g, lower s) with (lower_state (g, s)).
    by rewrite IH1, fmap_app.
  - rewrite star_lower, <- !list_fmap_compose. done.
  - destruct s as [|a s']; [done|]. simpl. rewrite cset_match_lower.
    destruct (cset_match c a); [|done].
    rewrite star_lower, <- !list_fmap_compose. done.
  - rewrite at_end_lower. by destruct (at_end s).
  - change (lower <$> g, lower s) with (lower_state (g, s)).
    rewrite IH1, <- !list_fmap_compose. apply list_fmap_ext.
    intros i [g1 s1] _. unfold lower_state. simpl.
    by rewrite !lower_length, lower_take.
Qed.

Lemma search_lower r s :
  search r (lower s) = (λ g : option string, lower <$> g) <$> search r s.
Proof.
  induction s as [|a s IH].
  - cbn [lower search]. pose proof (ends_lower r (None, "")) as E.
    change (lower_state (None, "")) with (@None string, "") in E.
    destruct (ends r (None, "")) as [|[g0 s0] l]; [done|].
    rewrite fmap_cons in E. injection E as E1 _ _. simpl in *.
    by rewrite <- E1.
  - cbn [lower search].
    change (None, String (lower_char a) (lower s))
      with (lower_state (None, String a s)).
    rewrite ends_lower.
    destruct (ends r (None, String a s)) as [|[g0 s0] l]; [exact IH|done].
Qed.

Lemma lower_number_token t : lang number_token t → lower t = t.
Proof.
  intros (a & d1 & d2 & Ha & Hd1 & Hd2 & [->| ->])%lang_number_token; simpl.
  - by rewrite (is_digit_lower_char a Ha), lower_app, !lower_digits.
  - rewrite (is_digit_lower_char a Ha), lower_app. simpl.
    by rewrite !lower_digits.
Qed.

(** The text of group 1 has no letters. *)
Lemma search_pattern_lower pattern multiplier title :
  (pattern, multiplier) ∈ patterns →
  search pattern (lower title) = search pattern title.
Proof.
  intros Hin. rewrite search_lower.
  destruct (search pattern title) as [g|] eqn:Hs; [|done]. simpl. f_equal.
  pose proof (proj1 (Forall_forall _ _) patterns_shape _ Hin) as (rest & E & Hg).
  simpl in E. subst pattern. unfold number_group in *.
  destruct (search_Some _ _ _ Hs) as (pre & s' & st & l & _ & E & ->).
  destruct (ends_group_then number_token rest (None, s') st Hg) as (t & L & ->).
  { rewrite E. apply list_elem_of_here. }
  simpl. by rewrite lower_number_token.
Qed.

Lemma extract_weight_loop_lower pats title :
  pats ⊆ patterns →
  extract_weight_loop pats (lower title) = extract_weight_loop pats title.
Proof.
  induction pats as [|[pattern multiplier] pats IH]; intros Hsub; [done|].
  assert ((pattern, multiplier) ∈ patterns) as Hin
    by (apply Hsub, list_elem_of_here).
  assert (pats ⊆ patterns) as Hsub'
    by (intros x Hx; apply Hsub; by apply list_elem_of_further).
  cbn [extract_weight_loop].
  by rewrite (search_pattern_lower pattern multiplier title Hin), (IH Hsub').
Qed.

(** X19.  The weight read from a title does not depend on the case of its
    letters: the lowercased title, on which step 2 filters, has the weight
    of the title itself, from which step 3 reads it. *)
Theorem extract_weight_ignores_case title :
  extract_weight (lower title) = extract_weight title.
Proof. by apply extract_weight_loop_lower. Qed.

End IgnoreCase.

Example extract_weight_ignores_case_sample :
  extract_weight "Moldavite 12.5 GRAMS, Czech" = Some (25 # 2)%Q
  ∧ extract_weight "moldavite 12.5 grams, czech" = Some (25 # 2)%Q
  ∧ extract_weight "Gold nugget 2 OZ" = Some (567 # 10)%Q.
Proof. split_and!; vm_compute; reflexivity. Qed.

(** ** Checks of the model on sample inputs *)

Example float_of_string_samples :
  PyFloat.of_string "5.2" = Some (26 # 5)%Q
  ∧ PyFloat.of_string " -1_0.50e1 " = Some (-105)%Q
  ∧ PyFloat.of_string "5." = Some 5%Q
  ∧ PyFloat.of_string "5.2g" = None
  ∧ PyFloat.of_string "" = None.
Proof. split_and!; reflexivity. Qed.

Example round_samples :
  PyFloat.round (7 # 200) 2 = (1 # 25)%Q
  ∧ PyFloat.round (1 # 8) 2 = (3 # 25)%Q
  ∧ PyFloat.round (12 # 5) 3 = (12 # 5)%Q.
Proof. split_and!; reflexivity. Qed.

Example repr_samples :
  PyFloat.repr (481 # 50) = "9.62"
  ∧ PyFloat.repr 10 = "10.0"
  ∧ PyFloat.repr (-1 # 8) = "-0.125".
Proof. split_and!; vm_compute; reflexivity. Qed.

Example string_samples :
  PyStr.lower "Darwin Glass 5.2G" = "darwin glass 5.2g"
  ∧ PyStr.replace ".csv" "" "a.csv.csvb" = "ab"
  ∧ PyStr.basename "x/y/z.csv" = "z.csv"
  ∧ PyStr.strip "  a b  " = "a b".
Proof. split_and!; reflexivity. Qed.

Example parse_price_samples :
  parse_price (Some "$1,250.50 ") = Some (2501 # 2)%Q
  ∧ parse_price (Some "0") = None
  ∧ parse_price (Some "1000000") = None
  ∧ parse_price (Some "") = None
  ∧ parse_price None = None.
Proof. split_and!; vm_compute; reflexivity. Qed.

Example get_material_key_samples :
  get_material_key MATERIAL_CONFIG "/x/Darwin-Glass.csv" = Some "darwin-glass"
  ∧ get_material_key MATERIAL_CONFIG "worthpoint-gibeon-2024.csv" = Some "gibeon"
  ∧ get_material_key MATERIAL_CONFIG "misc.csv" = None.
Proof. split_and!; vm_compute; reflexivity. Qed.

Example extract_weight_title_sample :
  extract_weight "Darwin Glass tektite 5.2g sold" = Some (26 # 5)%Q.
Proof. vm_compute. reflexivity. Qed.
